(** * TrIAje 593: the triage page and its voice-to-text module

    A shallow embedding of [app/app.py] (model loading, the degraded-mode
    stop, the analysis block with its confidence bands and top-3 view) and of
    [src/voice_recognition.py] ([transcribe_audio], [cleanup_temp_file],
    [append_text]).

    Conventions
    - a Python [str] is the list of its code points ([len] counts code
      points); literals are written as UTF-8 text and decoded by [py];
    - a Python [float] / NumPy [float64] is a primitive binary64 float, so a
      literal such as [0.8] denotes the same double as in the source;
    - calls into Streamlit, the recogniser, the file system and the
      components that live in other modules are recorded in an event log. *)

From Stdlib Require Import ZArith NArith List String Ascii Bool Lia Floats DecimalString.
From stdpp Require Import base option list sorting strings gmap.
Import ListNotations.

Set Warnings "-inexact-float".
Local Open Scope N_scope.

(** ** Python strings *)

Module PyStr.

(** A [str] is a sequence of Unicode code points. *)
Definition str := list N.

(** UTF-8 decoding of a literal: [acc] holds the bits read so far and [need]
    the number of continuation bytes still expected. *)
Fixpoint utf8_go (acc : N) (need : nat) (bs : list N) : str :=
  match bs with
  | [] => []
  | b :: bs' =>
      match need with
      | O =>
          if b <? 128 then b :: utf8_go 0 O bs'
          else if b <? 224 then utf8_go (b mod 32) 1%nat bs'
          else if b <? 240 then utf8_go (b mod 16) 2%nat bs'
          else utf8_go (b mod 8) 3%nat bs'
      | S O => (acc * 64 + b mod 64) :: utf8_go 0 O bs'
      | S n => utf8_go (acc * 64 + b mod 64) n bs'
      end
  end.

Definition py (s : string) : str :=
  utf8_go 0 O (map N_of_ascii (list_ascii_of_string s)).

(** [len(s)] *)
Definition len (s : str) : Z := Z.of_nat (length s).

(** Truth value of a string in a condition: non-empty. *)
Definition truthy (s : str) : bool :=
  match s with [] => false | _ => true end.

Definition str_eqb (a b : str) : bool := bool_decide (a = b).

(** [str.isspace] for one code point (the table of CPython's
    [_PyUnicode_IsWhitespace]). *)
Definition isspace (c : N) : bool :=
  ((9 <=? c) && (c <=? 13)) || ((28 <=? c) && (c <=? 32))
  || (c =? 133) || (c =? 160) || (c =? 5760)
  || ((8192 <=? c) && (c <=? 8202))
  || (c =? 8232) || (c =? 8233) || (c =? 8239) || (c =? 8287) || (c =? 12288).

Fixpoint lstrip (s : str) : str :=
  match s with
  | [] => []
  | c :: s' => if isspace c then lstrip s' else s
  end.

Definition rstrip (s : str) : str := rev (lstrip (rev s)).

(** [s.strip()] with no argument. *)
Definition strip (s : str) : str := rstrip (lstrip s).

(** [s.lower()] on ASCII and Latin-1 capitals only: every other code point
    is left alone, also those Python would lower. *)
Definition lower_char (c : N) : N :=
  if ((65 <=? c) && (c <=? 90)) || ((192 <=? c) && (c <=? 222) && negb (c =? 215))
  then c + 32 else c.

Definition lower (s : str) : str := map lower_char s.

(** [sub in s] *)
Fixpoint is_prefix (p s : str) : bool :=
  match p, s with
  | [], _ => true
  | _ :: _, [] => false
  | a :: p', b :: s' => (a =? b) && is_prefix p' s'
  end.

Fixpoint contains (sub s : str) : bool :=
  is_prefix sub s ||
  match s with
  | [] => false
  | _ :: s' => contains sub s'
  end.

(** Every code point is white space (the empty string included). *)
Definition whitespace_only (s : str) : bool := forallb isspace s.

End PyStr.
Import PyStr.

(** ** [src/voice_recognition.py]: [append_text] *)

Definition append_text (current_text new_text : str) : str :=
  if negb (truthy current_text) || str_eqb (strip current_text) []
  then new_text
  else current_text ++ py " " ++ new_text.

(** ** Exceptions, the store and the event log *)

(** The classes the [except] clauses tell apart. Every value of [exn] is an
    instance of Python's [Exception]. *)
Inductive exn_class : Type :=
| UnknownValueError   (* sr.UnknownValueError *)
| RequestError        (* sr.RequestError *)
| OtherException.     (* any other subclass of Exception *)

(** An exception with the text [str(e)] gives for it. *)
Record exn : Type := Exn { exn_kind : exn_class; exn_str : str }.

Definition bytes := list Byte.byte.

(** A Python number: the configured threshold is an [int], the one the
    library computes during calibration a [float]. *)
Inductive pynum : Type :=
| PyInt (z : Z)
| PyFloat (f : float).

(** [sr.Recognizer]: the two attributes the module assigns. An event of
    the log records the recogniser as it is when the call is made. *)
Record Recognizer : Type := {
  energy_threshold : pynum;
  dynamic_energy_threshold : bool
}.

(** A value held by the dictionaries the urgency scorer and the router
    return: a number or a text. *)
Inductive pyval : Type :=
| VInt (z : Z)
| VStr (s : str).

(** The fitted classifier: [model.predict_proba([t])[0]]. *)
Record Model : Type := { predict_proba : str → list float }.

(** The label decoder: [le.inverse_transform(idx)] reads [classes_]. *)
Record LabelEncoder : Type := { classes_ : list str }.

(** What a run does to the outside world, in order. Of the Streamlit calls
    the log keeps those whose content is computed by the run or that are
    made on some runs only; the static texts of the page (titles, headers,
    the help column, the instructions) and its layout (columns, dividers,
    spinners) are the same on every run that reaches them and are left
    out. *)
Inductive event : Type :=
(* src/voice_recognition.py *)
| EvOpenWrite (path : string)
| EvWrite (path : string) (data : bytes)
| EvRecognizerNew
| EvAudioFile (path : string)
| EvAdjustForAmbientNoise (r : Recognizer) (duration : float)
| EvRecord (r : Recognizer)
| EvRecognizeGoogle (r : Recognizer) (language : str)
| EvRemove (path : string)
(* components of the other modules, called from app/app.py *)
| CallLimpiarTextoMedico (texto : str)
| CallPredictProba (texto : str)
| CallInverseTransform (idx : list nat)
| CallCalcularPrioridad (texto : str)
| CallCalcularDerivacion (nivel : pyval) (especialidad : str)
(* Streamlit *)
| StSuccess (msg : str)
| StWarning (msg : str)
| StError (msg : str)
| StCaption (msg : str)
| StInfo (msg : pyval)
| StMarkdown (body : str)
| StImage (path : string)
| StBarChart (especialidad : list str) (probabilidad : list float)
| StStop
| StRerun.

(** What [@st.cache_resource] keeps of the one execution of [load_models]:
    the pair it returned and the Streamlit elements it showed, which are
    shown again each time the cached value is served. *)
Definition cached_models : Type :=
  (option Model * option LabelEncoder) * list event.

(** The mutable world of the page: the files on disk,
    [st.session_state.texto_completo], and the resource cache of the
    process, empty until [load_models] has run once. *)
Record Store : Type := {
  fs : gmap string bytes;
  texto_completo : str;
  models_cache : option cached_models
}.

Definition set_fs (f : gmap string bytes → gmap string bytes) (s : Store) : Store :=
  {| fs := f (fs s); texto_completo := texto_completo s;
     models_cache := models_cache s |}.

Definition set_texto_completo (t : str) (s : Store) : Store :=
  {| fs := fs s; texto_completo := t; models_cache := models_cache s |}.

Definition set_models_cache (c : option cached_models) (s : Store) : Store :=
  {| fs := fs s; texto_completo := texto_completo s; models_cache := c |}.

(** A computation either raises or returns, changes the store and appends
    to the log. *)
Definition Py (A : Type) : Type := Store → (exn + A) * Store * list event.

Definition ret {A} (a : A) : Py A := λ s, (inr a, s, []).

Definition raise {A} (e : exn) : Py A := λ s, (inl e, s, []).

Definition bind {A B} (m : Py A) (k : A → Py B) : Py B :=
  λ s, match m s with
       | (inl e, s1, l1) => (inl e, s1, l1)
       | (inr a, s1, l1) =>
           match k a s1 with
           | (r, s2, l2) => (r, s2, l1 ++ l2)
           end
       end.

(** [try: body except ...: handler]: [handler e] is [None] when no clause
    matches [e], which then propagates. *)
Definition try_except {A} (body : Py A) (handler : exn → option (Py A)) : Py A :=
  λ s, match body s with
       | (inl e, s1, l1) =>
           match handler e with
           | Some h =>
               match h s1 with
               | (r, s2, l2) => (r, s2, l1 ++ l2)
               end
           | None => (inl e, s1, l1)
           end
       | r => r
       end.

Definition emit (e : event) : Py unit := λ s, (inr tt, s, [e]).

Definition get_store : Py Store := λ s, (inr s, s, []).

Definition modify (f : Store → Store) : Py unit := λ s, (inr tt, f s, []).

(** What an external operation does: fail with an exception or succeed. *)
Definition outcome (o : option exn) : Py unit :=
  match o with
  | Some e => raise e
  | None => ret tt
  end.

Definition of_sum {A} (r : exn + A) : Py A :=
  match r with
  | inl e => raise e
  | inr a => ret a
  end.

Declare Scope py_scope.
Delimit Scope py_scope with py.
Notation "x <- c1 ;; c2" := (bind c1 (λ x, c2))
  (at level 100, c1 at next level, right associativity) : py_scope.
Notation "c1 ;; c2" := (bind c1 (λ _, c2))
  (at level 100, right associativity) : py_scope.
Local Open Scope py_scope.

(** ** [src/voice_recognition.py] *)

Module Voice.

Record VoiceConfig : Type := {
  VOICE_LANGUAGE : str;
  VOICE_ENERGY_THRESHOLD : Z;
  VOICE_DYNAMIC_THRESHOLD : bool;
  VOICE_AMBIENT_DURATION : float
}.

(** [src.config] as the module sees it: each of the four names may be
    missing from it, and the module itself may be missing. *)
Record ConfigModule : Type := {
  cfg_VOICE_LANGUAGE : option str;
  cfg_VOICE_ENERGY_THRESHOLD : option Z;
  cfg_VOICE_DYNAMIC_THRESHOLD : option bool;
  cfg_VOICE_AMBIENT_DURATION : option float
}.

(** The values of the [except ImportError] branch. *)
Definition default_config : VoiceConfig := {|
  VOICE_LANGUAGE := py "es-ES";
  VOICE_ENERGY_THRESHOLD := 4000;
  VOICE_DYNAMIC_THRESHOLD := true;
  VOICE_AMBIENT_DURATION := 0.5
|}.

(** [from src.config import (...)]: an [ImportError] when the module or one
    of the four names is missing. *)
Definition from_config_import (m : option ConfigModule) : option VoiceConfig :=
  match m with
  | None => None
  | Some c =>
      match cfg_VOICE_LANGUAGE c, cfg_VOICE_ENERGY_THRESHOLD c,
            cfg_VOICE_DYNAMIC_THRESHOLD c, cfg_VOICE_AMBIENT_DURATION c with
      | Some l, Some e, Some d, Some a =>
          Some {| VOICE_LANGUAGE := l; VOICE_ENERGY_THRESHOLD := e;
                  VOICE_DYNAMIC_THRESHOLD := d; VOICE_AMBIENT_DURATION := a |}
      | _, _, _, _ => None
      end
  end.

(** The module's top-level [try: ... except ImportError: ...]. *)
Definition load_config (m : option ConfigModule) : VoiceConfig :=
  match from_config_import m with
  | Some c => c
  | None => default_config
  end.

(** What the operations outside the module do in one call: each may raise. *)
Record World : Type := {
  w_open : option exn;                      (* open(temp_file, "wb") *)
  w_write : option exn;                     (* f.write(audio_bytes) *)
  w_recognizer : option exn;                (* sr.Recognizer() *)
  w_audiofile : option exn;                 (* entering sr.AudioFile(temp_file) *)
  w_adjust : option exn;                    (* adjust_for_ambient_noise *)
  w_ambient : Recognizer → float → pynum;   (* the threshold it leaves behind *)
  w_record : exn + bytes;                   (* recognizer.record(source) *)
  w_recognize : bytes → str → exn + str;    (* recognize_google(audio, language) *)
  w_remove : option exn                     (* os.remove *)
}.

Definition temp_file : string := "temp_audio.wav".

(** [with open(path, "wb") as f: f.write(data)]: opening creates or
    truncates the file. *)
Definition open_write (w : World) (path : string) (data : bytes) : Py unit :=
  emit (EvOpenWrite path) ;;
  outcome (w_open w) ;;
  modify (set_fs (insert path [])) ;;
  emit (EvWrite path data) ;;
  outcome (w_write w) ;;
  modify (set_fs (insert path data)).

(** library defaults of [sr.Recognizer()] *)
Definition Recognizer_new (w : World) : Py Recognizer :=
  emit EvRecognizerNew ;;
  outcome (w_recognizer w) ;;
  ret {| energy_threshold := PyInt 300; dynamic_energy_threshold := true |}.

Definition set_energy_threshold (v : pynum) (r : Recognizer) : Recognizer :=
  {| energy_threshold := v; dynamic_energy_threshold := dynamic_energy_threshold r |}.

Definition set_dynamic_energy_threshold (b : bool) (r : Recognizer) : Recognizer :=
  {| energy_threshold := energy_threshold r; dynamic_energy_threshold := b |}.

Definition AudioFile_enter (w : World) (path : string) : Py unit :=
  emit (EvAudioFile path) ;; outcome (w_audiofile w).

(** The library listens to the first [duration] seconds of the source and
    overwrites [energy_threshold] of the recogniser with what it heard. *)
Definition adjust_for_ambient_noise (w : World) (r : Recognizer) (duration : float)
    : Py Recognizer :=
  emit (EvAdjustForAmbientNoise r duration) ;;
  outcome (w_adjust w) ;;
  ret (set_energy_threshold (w_ambient w r duration) r).

Definition record (w : World) (r : Recognizer) : Py bytes :=
  emit (EvRecord r) ;; of_sum (w_record w).

Definition recognize_google (w : World) (r : Recognizer) (audio_data : bytes)
    (language : str) : Py str :=
  emit (EvRecognizeGoogle r language) ;; of_sum (w_recognize w audio_data language).

Definition os_path_exists (path : string) : Py bool :=
  s <- get_store ;; ret (bool_decide (is_Some (fs s !! path))).

Definition os_remove (w : World) (path : string) : Py unit :=
  emit (EvRemove path) ;;
  outcome (w_remove w) ;;
  modify (set_fs (delete path)).

Definition cleanup_temp_file (w : World) (filepath : string) : Py unit :=
  try_except
    (b <- os_path_exists filepath ;;
     if b then os_remove w filepath else ret tt)
    (λ _, Some (ret tt)).

(** The returned triple [(success, text, error_message)]. *)
Definition result : Type := bool * option str * option str.

Definition msg_unknown : str :=
  py "No se pudo entender el audio. Intenta hablar más claro.".
Definition msg_request (e : exn) : str :=
  py "Error del servicio de reconocimiento: " ++ exn_str e.
Definition msg_processing (e : exn) : str :=
  py "Error procesando audio: " ++ exn_str e.

Definition transcribe_audio (cfg : VoiceConfig) (w : World)
    (audio_bytes : bytes) (language : option str) : Py result :=
  let language := match language with
                  | None => VOICE_LANGUAGE cfg
                  | Some l => l
                  end in
  try_except
    (open_write w temp_file audio_bytes ;;
     recognizer <- Recognizer_new w ;;
     let recognizer := set_energy_threshold (PyInt (VOICE_ENERGY_THRESHOLD cfg)) recognizer in
     let recognizer := set_dynamic_energy_threshold (VOICE_DYNAMIC_THRESHOLD cfg) recognizer in
     AudioFile_enter w temp_file ;;
     recognizer <- adjust_for_ambient_noise w recognizer (VOICE_AMBIENT_DURATION cfg) ;;
     audio_data <- record w recognizer ;;
     try_except
       (texto_transcrito <- recognize_google w recognizer audio_data language ;;
        cleanup_temp_file w temp_file ;;
        ret (true, Some texto_transcrito, None))
       (λ e, match exn_kind e with
             | UnknownValueError =>
                 Some (cleanup_temp_file w temp_file ;;
                       ret (false, None, Some msg_unknown))
             | RequestError =>
                 Some (cleanup_temp_file w temp_file ;;
                       ret (false, None, Some (msg_request e)))
             | OtherException => None
             end))
    (λ e, Some (cleanup_temp_file w temp_file ;;
                ret (false, None, Some (msg_processing e)))).

(** The tagged outcome of a transcription, and the triple that stands for
    each tag. *)
Inductive TranscriptionResult : Type :=
| Success (text : str)
| Unrecognized
| ServiceError (detail : str)
| ProcessingError (detail : str).

Definition encode (t : TranscriptionResult) : result :=
  match t with
  | Success text => (true, Some text, None)
  | Unrecognized => (false, None, Some msg_unknown)
  | ServiceError detail =>
      (false, None, Some (py "Error del servicio de reconocimiento: " ++ detail))
  | ProcessingError detail =>
      (false, None, Some (py "Error procesando audio: " ++ detail))
  end.

(** What happens before the recognition service is called: the first step
    that fails, or the recorded audio. *)
Definition before_recognition (w : World) : exn + bytes :=
  match w_open w with Some e => inl e | None =>
  match w_write w with Some e => inl e | None =>
  match w_recognizer w with Some e => inl e | None =>
  match w_audiofile w with Some e => inl e | None =>
  match w_adjust w with Some e => inl e | None => w_record w
  end end end end end.

(** The outcome in the words of the specification: a transcript is a
    success; the service not understanding the audio, or being unreachable
    or rejecting the request, are the two service failures; anything else
    that fails is a processing error. *)
Definition outcome_of (w : World) (language : str) : TranscriptionResult :=
  match before_recognition w with
  | inl e => ProcessingError (exn_str e)
  | inr audio_data =>
      match w_recognize w audio_data language with
      | inr text => Success text
      | inl e =>
          match exn_kind e with
          | UnknownValueError => Unrecognized
          | RequestError => ServiceError (exn_str e)
          | OtherException => ProcessingError (exn_str e)
          end
      end
  end.

(** The recogniser as the module leaves it after the two assignments. *)
Definition configured (cfg : VoiceConfig) : Recognizer := {|
  energy_threshold := PyInt (VOICE_ENERGY_THRESHOLD cfg);
  dynamic_energy_threshold := VOICE_DYNAMIC_THRESHOLD cfg
|}.

(** The recogniser after the calibration: the dynamic flag is still the
    configured one, the threshold is the one the library computed from the
    configured threshold and duration. *)
Definition calibrated (cfg : VoiceConfig) (w : World) : Recognizer :=
  set_energy_threshold
    (w_ambient w (configured cfg) (VOICE_AMBIENT_DURATION cfg)) (configured cfg).

(** What each engine call of a log is made with: the calibration runs on
    the recogniser holding the configured threshold and flag, for the
    configured duration; recording and recognition run on the recogniser as
    the calibration left it, the recognition with the given language. *)
Definition applies (cfg : VoiceConfig) (w : World) (language : str) (e : event) : Prop :=
  match e with
  | EvAdjustForAmbientNoise r d =>
      r = configured cfg ∧ d = VOICE_AMBIENT_DURATION cfg
  | EvRecord r => r = calibrated cfg w
  | EvRecognizeGoogle r l => r = calibrated cfg w ∧ l = language
  | _ => True
  end.

(** The language a call uses. *)
Definition language_of (cfg : VoiceConfig) (language : option str) : str :=
  match language with
  | None => VOICE_LANGUAGE cfg
  | Some l => l
  end.

(** The same world with a deletion that succeeds. *)
Definition with_remove_ok (w : World) : World := {|
  w_open := w_open w; w_write := w_write w; w_recognizer := w_recognizer w;
  w_audiofile := w_audiofile w; w_adjust := w_adjust w; w_ambient := w_ambient w;
  w_record := w_record w; w_recognize := w_recognize w; w_remove := None
|}.

End Voice.

(** ** NumPy on a vector of [float64] *)

Module Np.

(** A float is a number: not a NaN. *)
Definition number (x : float) : Prop := is_nan x = false.

Definition all_numbers (a : list float) : bool :=
  forallb (λ x, negb (is_nan x)) a.

(** [np.argmax] of a one-dimensional array: the index of the first
    occurrence of the maximum. This is the library's loop: a later entry
    replaces the running maximum [mp] only when [not (x <= mp)], and a NaN
    maximum ends the scan. *)
Fixpoint argmax_from (mp : float) (max_ind i : nat) (l : list float) : nat :=
  match l with
  | [] => max_ind
  | x :: l' =>
      if is_nan mp then max_ind
      else if negb (x <=? mp)%float then argmax_from x i (S i) l'
      else argmax_from mp max_ind (S i) l'
  end.

(** [None]: the [ValueError] raised for an empty array. *)
Definition argmax (a : list float) : option nat :=
  match a with
  | [] => None
  | x :: l => Some (argmax_from x 0 1 l)
  end.

(** The order NumPy sorts floats by: NaN after every number. *)
Definition less (a b : float) : bool :=
  (a <? b)%float || (is_nan b && negb (is_nan a)).

(** One insertion step of the sort: [x] goes after every entry that is not
    greater than it, so entries that compare equal keep their order. *)
Fixpoint insert_sorted (x : nat * float) (l : list (nat * float)) : list (nat * float) :=
  match l with
  | [] => [x]
  | y :: l' => if less x.2 y.2 then x :: y :: l' else y :: insert_sorted x l'
  end.

Fixpoint enumerate_from (i : nat) (a : list float) : list (nat * float) :=
  match a with
  | [] => []
  | x :: a' => (i, x) :: enumerate_from (S i) a'
  end.

Definition enumerate (a : list float) : list (nat * float) := enumerate_from 0 a.

Definition sort_pairs (l : list (nat * float)) : list (nat * float) :=
  fold_left (λ acc x, insert_sorted x acc) l [].

(** [np.argsort(a, kind='stable')]: the indices that sort [a] in ascending
    order, entries that compare equal left in index order. The call of the
    page, [np.argsort(a)], uses the default kind, which is not stable: this
    is one of the orders it may return, not the one it returns on every
    input. *)
Definition argsort_stable (a : list float) : list nat :=
  (sort_pairs (enumerate a)).*1.

(** The order of the sorted pairs: ascending value, and ascending index
    among values that compare equal. *)
Definition before (a b : nat * float) : Prop :=
  (a.2 <=? b.2)%float = true ∧ ((b.2 <=? a.2)%float = true → (a.1 < b.1)%nat).

(** What [np.argsort(a)] promises whatever sort it runs: a permutation of
    the indices of [a] that lists its values in ascending order. *)
Definition is_argsort (a : list float) (idx : list nat) : Prop :=
  idx ≡ₚ seq 0 (length a)
  ∧ ∀ u v i j x y,
      (u < v)%nat → idx !! u = Some i → idx !! v = Some j →
      a !! i = Some x → a !! j = Some y → (x <=? y)%float = true.

(** [a[-k:]] *)
Definition last_k {A} (k : nat) (l : list A) : list A := drop (length l - k) l.

(** [a[idx]] for an index array; [None] is the [IndexError]. *)
Definition take_idx {A} (a : list A) (idx : list nat) : option (list A) :=
  mapM (λ i, a !! i) idx.

End Np.

(** ** [app/app.py]: templates *)

Module Templates.

(** Where the templates live and what reading a file as UTF-8 text gives:
    [path_of filename] is [TEMPLATES_DIR / filename], and [read_text] is
    [f.read()] on an existing file, which may raise (never a
    [FileNotFoundError]). *)
Record Files : Type := {
  path_of : string → string;
  read_text : bytes → exn + str
}.

Definition not_found (filename : string) : str :=
  py "<!-- Template " ++ py filename ++ py " no encontrado -->".

(** [open] raises [FileNotFoundError] exactly when the path does not exist;
    it is the one exception the function catches. *)
Definition load_template (t : Files) (filename : string) : Py str :=
  s <- get_store ;;
  match fs s !! path_of t filename with
  | None => ret (not_found filename)
  | Some b => of_sum (read_text t b)
  end.

Definition load_css (t : Files) : Py str :=
  css <- load_template t "styles.css" ;;
  ret (py "<style>" ++ [10] ++ css ++ [10] ++ py "</style>").

End Templates.

(** ** [app/app.py] *)

Module App.

(** What the page uses and the two embedded files do not define: the
    functions imported from [src.data_utils], [src.manchester] and
    [src.derivacion] (the scorer and the router return dictionaries), the
    paths of the artifacts and of the logo, what unpickling gives, the
    template files, and two library functions taken as they come:
    [np.argsort] with its default kind, which promises an ascending order
    but no order among equal entries, and [str.format]. *)
Record Env : Type := {
  limpiar_texto_medico : str → str;
  calcular_prioridad : str → gmap string pyval;
  calcular_derivacion : pyval → str → gmap string pyval;
  MODEL_SVM_PATH : string;
  LABEL_ENCODER_PATH : string;
  LOGO_PATH : string;
  pickle_load_model : bytes → exn + Model;
  pickle_load_le : bytes → exn + LabelEncoder;
  voice_config : Voice.VoiceConfig;
  templates : Templates.Files;
  np_argsort : list float → list nat;
  str_format : str → list (string * pyval) → exn + str
}.

(** What the user did on the page before this run. *)
Record Request : Type := {
  audio_bytes : option bytes;     (* audio_recorder(...) *)
  text_area : str → str;          (* st.text_area(..., value=v) *)
  analizar : bool;                (* st.button("Analizar") *)
  limpiar_todo : bool             (* st.button("Limpiar todo") *)
}.

Definition open_rb (path : string) : Py bytes :=
  s <- get_store ;;
  match fs s !! path with
  | Some b => ret b
  | None => raise (Exn OtherException (py "[Errno 2] No such file or directory"))
  end.

(** The body of [load_models], the function the decorator wraps. *)
Definition load_models_body (env : Env) : Py (option Model * option LabelEncoder) :=
  try_except
    (s <- get_store ;;
     if negb (bool_decide (is_Some (fs s !! MODEL_SVM_PATH env)))
        || negb (bool_decide (is_Some (fs s !! LABEL_ENCODER_PATH env)))
     then ret (None, None)
     else
       f <- open_rb (MODEL_SVM_PATH env) ;;
       model <- of_sum (pickle_load_model env f) ;;
       f <- open_rb (LABEL_ENCODER_PATH env) ;;
       le <- of_sum (pickle_load_le env f) ;;
       ret (Some model, Some le))
    (λ e, Some (emit (StError (py "Error técnico: " ++ exn_str e)) ;;
                ret (None, None))).

(** [load_models] under [@st.cache_resource]: the body runs the first time
    the function is called in the process; what it returned and showed is
    kept and served on every later call, whatever the files have become. *)
Definition load_models (env : Env) : Py (option Model * option LabelEncoder) :=
  λ s, match models_cache s with
       | Some (r, shown) => (inr r, s, shown)
       | None =>
           match load_models_body env s with
           | (inr r, s1, shown) =>
               (inr r, set_models_cache (Some (r, shown)) s1, shown)
           | failed => failed
           end
       end.

(** [le.inverse_transform(idx)]; a label out of range is a [ValueError]
    (of its message, which goes on to list the labels, the fixed part is
    kept), a missing decoder an [AttributeError]. *)
Definition inverse_transform (le : option LabelEncoder) (idx : list nat) : Py (list str) :=
  emit (CallInverseTransform idx) ;;
  match le with
  | None => raise (Exn OtherException
                     (py "'NoneType' object has no attribute 'inverse_transform'"))
  | Some l =>
      match Np.take_idx (classes_ l) idx with
      | Some r => ret r
      | None => raise (Exn OtherException (py "y contains previously unseen labels"))
      end
  end.

Definition index {A} (l : list A) (i : nat) : Py A :=
  match l !! i with
  | Some x => ret x
  | None => raise (Exn OtherException (py "index out of range"))
  end.

Inductive Certeza : Type := Alto | Medio | Bajo.

(** The [if confidence > 0.8 / elif confidence > 0.5 / else] of the
    diagnosis card. *)
Definition certeza (confidence : float) : Certeza :=
  if (0.8 <? confidence)%float then Alto
  else if (0.5 <? confidence)%float then Medio
  else Bajo.

Definition diagnosis_card (confidence : float) (especialidad_pred : str) : Py unit :=
  match certeza confidence with
  | Alto =>
      emit (StSuccess (py "### " ++ especialidad_pred)) ;;
      emit (StCaption (py "Nivel de certeza: Alto"))
  | Medio =>
      emit (StWarning (py "### " ++ especialidad_pred)) ;;
      emit (StCaption (py "Nivel de certeza: Medio (Revisar)"))
  | Bajo =>
      emit (StError (py "### " ++ especialidad_pred)) ;;
      emit (StCaption (py "Nivel de certeza: Bajo (Requiere valoración humana)"))
  end.

(** [idx[-3:][::-1]] *)
Definition top3_of (idx : list nat) : list nat := reverse (Np.last_k 3 idx).

(** Entries of equal probability are listed in their original index
    order. *)
Definition ties_in_index_order (pred_probs : list float) (idx : list nat) : Prop :=
  ∀ a b i j x y,
    (a < b)%nat → idx !! a = Some i → idx !! b = Some j →
    pred_probs !! i = Some x → pred_probs !! j = Some y →
    (x =? y)%float = true → (i < j)%nat.

Definition msg_breve : str :=
  py "La descripción es demasiado breve para un diagnóstico fiable.".
Definition msg_vacio : str :=
  py "Por favor ingresa una descripción para comenzar.".

(** [d[key]]: a [KeyError] when the key is missing. *)
Definition getitem {V} (d : gmap string V) (key : string) : Py V :=
  match d !! key with
  | Some v => ret v
  | None => raise (Exn OtherException (py "'" ++ py key ++ py "'"))
  end.

(** [str(v)], as an f-string renders a value. *)
Definition str_of (v : pyval) : str :=
  match v with
  | VStr s => s
  | VInt z => py (NilZero.string_of_int (Z.to_int z))
  end.

(** The block under [# Lógica de Análisis], without its layout calls
    (columns, dividers, headers, spinner, the pause). *)
Definition analysis (env : Env) (model : Model) (le : option LabelEncoder)
    (analizar : bool) (texto_input : str) : Py unit :=
  if analizar && truthy texto_input then
    if (len texto_input <? 10)%Z then
      emit (StWarning msg_breve)
    else
      emit (CallLimpiarTextoMedico texto_input) ;;
      let texto_limpio := limpiar_texto_medico env texto_input in
      emit (CallPredictProba texto_limpio) ;;
      let pred_probs := predict_proba model texto_limpio in
      max_idx <- match Np.argmax pred_probs with
                 | Some i => ret i
                 | None => raise (Exn OtherException
                                    (py "attempt to get argmax of an empty sequence"))
                 end ;;
      confidence <- index pred_probs max_idx ;;
      labels <- inverse_transform le [max_idx] ;;
      especialidad_pred <- index labels 0 ;;
      diagnosis_card confidence especialidad_pred ;;
      emit (CallCalcularPrioridad texto_input) ;;
      let triaje := calcular_prioridad env texto_input in
      template <- Templates.load_template (templates env) "triaje_card.html" ;;
      nivel <- getitem triaje "nivel" ;;
      nombre <- getitem triaje "nombre" ;;
      color <- getitem triaje "color" ;;
      tiempo <- getitem triaje "tiempo" ;;
      html <- of_sum (str_format env template
                        [("nivel", nivel); ("nombre", nombre);
                         ("color", color); ("tiempo", tiempo)]) ;;
      emit (StMarkdown html) ;;
      nivel <- getitem triaje "nivel" ;;
      emit (CallCalcularDerivacion nivel especialidad_pred) ;;
      let derivacion := calcular_derivacion env nivel especialidad_pred in
      icon_template <- Templates.load_template (templates env) "icon_centered.html" ;;
      icono <- getitem derivacion "icono" ;;
      html <- of_sum (str_format env icon_template
                        [("icon", icono); ("size", VStr (py "3rem"))]) ;;
      emit (StMarkdown html) ;;
      tipo <- getitem derivacion "tipo" ;;
      emit (StMarkdown (py "### " ++ str_of tipo)) ;;
      accion <- getitem derivacion "accion" ;;
      emit (StMarkdown (py "**ACCIÓN:** " ++ str_of accion)) ;;
      mensaje <- getitem derivacion "mensaje" ;;
      emit (StInfo mensaje) ;;
      let top3 := top3_of (np_argsort env pred_probs) in
      especialidades <- inverse_transform le top3 ;;
      probabilidades <- of_sum (match Np.take_idx pred_probs top3 with
                                | Some v => inr v
                                | None => inl (Exn OtherException (py "index out of range"))
                                end) ;;
      emit (StBarChart especialidades probabilidades)
  else if analizar && negb (truthy texto_input) then
    emit (StError msg_vacio)
  else ret tt.

(** The [if audio_bytes:] block. The last branch stands for the two shapes
    of triple the page has no code for (a missing text on success, a missing
    message on failure), where Python raises a [TypeError] or an
    [AttributeError]. *)
Definition process_audio (env : Env) (w : Voice.World) (audio : option bytes) : Py unit :=
  match audio with
  | None | Some [] => ret tt
  | Some a =>
      r <- Voice.transcribe_audio (voice_config env) w a None ;;
      match r with
      | (true, Some texto_transcrito, _) =>
          s <- get_store ;;
          modify (set_texto_completo (append_text (texto_completo s) texto_transcrito)) ;;
          emit (StSuccess (py "Transcrito correctamente"))
      | (false, _, Some error_msg) =>
          if contains (py "no se pudo entender") (lower error_msg)
          then emit (StWarning error_msg)
          else emit (StError error_msg)
      | _ => raise (Exn OtherException (py "NoneType"))
      end
  end.

(** What a run shows when there is no model. *)
Definition degraded_log : list event :=
  [StError (py "● Sistema Desconectado");
   StCaption (py "No se encontraron los modelos en `models/`");
   StWarning (py "**Atención:** Debes entrenar el modelo antes de usar la app. Ejecuta `python src/train.py` en tu terminal.");
   StStop].

(** The script from the status line on, given what [load_models]
    returned. A loaded model counts as true in [if model:], [None] as
    false. *)
Definition page_body (env : Env) (w : Voice.World) (req : Request)
    (ml : option Model * option LabelEncoder) : Py unit :=
  let model := ml.1 in
  let le := ml.2 in
  (match model with
   | Some _ => emit (StSuccess (py "● Sistema En Línea"))
   | None =>
       emit (StError (py "● Sistema Desconectado")) ;;
       emit (StCaption (py "No se encontraron los modelos en `models/`"))
   end) ;;
  match model with
  | None =>
      emit (StWarning (py "**Atención:** Debes entrenar el modelo antes de usar la app. Ejecuta `python src/train.py` en tu terminal.")) ;;
      emit StStop
  | Some m =>
      process_audio env w (audio_bytes req) ;;
      s <- get_store ;;
      let texto_input := text_area req (texto_completo s) in
      modify (set_texto_completo texto_input) ;;
      if limpiar_todo req then
        modify (set_texto_completo []) ;;
        emit StRerun
      else
        analysis env m le (analizar req) texto_input
  end.

(** The part of the script that depends on the model: the loader, then
    [page_body]. The stylesheet and the logo are rendered by [app] around
    it. *)
Definition run_page (env : Env) (w : Voice.World) (req : Request) : Py unit :=
  ml <- load_models env ;;
  page_body env w req ml.

(** [st.image(path)]: the file has to be there. *)
Definition st_image (path : string) : Py unit :=
  s <- get_store ;;
  match fs s !! path with
  | Some _ => emit (StImage path)
  | None => raise (Exn OtherException (py "Error opening " ++ py path))
  end.

(** One run of the whole script, without its layout calls and static
    texts: the stylesheet, the loader, the logo of the sidebar, then
    [page_body]. *)
Definition app (env : Env) (w : Voice.World) (req : Request) : Py unit :=
  css <- Templates.load_css (templates env) ;;
  emit (StMarkdown css) ;;
  ml <- load_models env ;;
  st_image (LOGO_PATH env) ;;
  page_body env w req ml.

End App.

(** ** A concrete page *)

(** Modelled from the spec: [src.data_utils], [src.manchester],
    [src.derivacion], the two pickled artifacts and the template files are
    missing from the embedded files. The page takes them as parameters
    ([Env]); to run it on concrete inputs this module gives them the shape
    the specification describes: a normaliser that trims and lowers, a
    classifier returning a distribution over a fixed set of specialties, a
    scorer that falls back to the lowest of the five urgency levels, and a
    referral plan with its four fields. The formatter joins the values it is
    given, and the sort is the stable one. *)

Module Fixture.
Import App.

Definition model : Model :=
  {| predict_proba := λ _, [0.7; 0.2; 0.1]%float |}.

Definition le : LabelEncoder :=
  {| classes_ := [py "Cardiología"; py "Neurología"; py "Pediatría"] |}.

Definition triaje : gmap string pyval :=
  <["nivel" := VInt 5]> (<["nombre" := VStr (py "No urgente")]>
  (<["color" := VStr (py "Azul")]> (<["tiempo" := VStr (py "240 min")]> ∅))).

Definition derivacion : gmap string pyval :=
  <["tipo" := VStr (py "Consulta externa")]>
  (<["accion" := VStr (py "Agendar cita")]>
  (<["mensaje" := VStr (py "Derivar a la especialidad sugerida")]>
  (<["icono" := VStr (py "+")]> ∅))).

Definition files : Templates.Files := {|
  Templates.path_of := λ f, String.append "app/templates/" f;
  Templates.read_text := λ b, inr (N.of_nat ∘ Byte.to_nat <$> b)
|}.

Definition env : Env := {|
  limpiar_texto_medico := λ t, lower (strip t);
  calcular_prioridad := λ _, triaje;
  calcular_derivacion := λ _ _, derivacion;
  MODEL_SVM_PATH := "models/svm_model.pkl";
  LABEL_ENCODER_PATH := "models/label_encoder.pkl";
  LOGO_PATH := "app/templates/logo.png";
  pickle_load_model := λ _, inr model;
  pickle_load_le := λ _, inr le;
  voice_config := Voice.default_config;
  templates := files;
  np_argsort := Np.argsort_stable;
  str_format := λ template args, inr (template ++ concat (str_of ∘ snd <$> args))
|}.

(** A recogniser that is never reached in these runs. *)
Definition world : Voice.World := {|
  Voice.w_open := None; Voice.w_write := None; Voice.w_recognizer := None;
  Voice.w_audiofile := None; Voice.w_adjust := None;
  Voice.w_ambient := λ _ _, PyFloat 2461.157;
  Voice.w_record := inr [];
  Voice.w_recognize := λ _ _, inr (py "dolor de cabeza");
  Voice.w_remove := None
|}.

(** Both artifacts and the logo on disk, nothing loaded yet. *)
Definition store_ok : Store := {|
  fs := <["models/svm_model.pkl" := []]> (<["models/label_encoder.pkl" := []]>
        (<["app/templates/logo.png" := []]> ∅));
  texto_completo := [];
  models_cache := None
|}.

(** The label decoder is missing. *)
Definition store_degraded : Store := {|
  fs := <["models/svm_model.pkl" := []]> (<["app/templates/logo.png" := []]> ∅);
  texto_completo := [];
  models_cache := None
|}.

(** The user typed [texto] and pressed "Analizar". *)
Definition request (texto : str) : Request := {|
  audio_bytes := None;
  text_area := λ _, texto;
  analizar := true;
  limpiar_todo := false
|}.

Definition is_urgency_or_referral_call (e : event) : bool :=
  match e with
  | CallCalcularPrioridad _ | CallCalcularDerivacion _ _ => true
  | _ => false
  end.

Definition is_component_call (e : event) : bool :=
  match e with
  | CallLimpiarTextoMedico _ | CallPredictProba _ | CallInverseTransform _
  | CallCalcularPrioridad _ | CallCalcularDerivacion _ _ => true
  | _ => false
  end.

End Fixture.

(** ** Derived notions used in the statements below *)

(** Dictating several times in a row: each transcript is merged into the
    session text by [append_text], as the page does on every run. *)
Definition dictate (existing : str) (chunks : list str) : str :=
  fold_left append_text chunks existing.


(** The engine steps of one transcription, in the order of the source. *)
Definition engine_steps (cfg : Voice.VoiceConfig) (w : Voice.World) (audio : bytes)
    (language : str) : list event :=
  [EvOpenWrite Voice.temp_file;
   EvWrite Voice.temp_file audio;
   EvRecognizerNew;
   EvAudioFile Voice.temp_file;
   EvAdjustForAmbientNoise (Voice.configured cfg) (Voice.VOICE_AMBIENT_DURATION cfg);
   EvRecord (Voice.calibrated cfg w);
   EvRecognizeGoogle (Voice.calibrated cfg w) language].

(** How many of them are started in a given world: a step is started when
    all the steps before it succeeded. *)
Definition steps_started (w : Voice.World) : nat :=
  match Voice.w_open w with Some _ => 1 | None =>
  match Voice.w_write w with Some _ => 2 | None =>
  match Voice.w_recognizer w with Some _ => 3 | None =>
  match Voice.w_audiofile w with Some _ => 4 | None =>
  match Voice.w_adjust w with Some _ => 5 | None =>
  match Voice.w_record w with inl _ => 6 | inr _ => 7
  end end end end end end.

Definition is_recognize_call (e : event) : bool :=
  match e with EvRecognizeGoogle _ _ => true | _ => false end.

Definition is_voice_event (e : event) : bool :=
  match e with
  | EvOpenWrite _ | EvWrite _ _ | EvRecognizerNew | EvAudioFile _
  | EvAdjustForAmbientNoise _ _ | EvRecord _ | EvRecognizeGoogle _ _
  | EvRemove _ => true
  | _ => false
  end.

(** The text the session holds once the [if audio_bytes:] block has run. *)
Definition dictated (env : App.Env) (w : Voice.World) (audio : option bytes)
    (texto : str) : str :=
  match audio with
  | None | Some [] => texto
  | Some _ =>
      match Voice.outcome_of w (Voice.VOICE_LANGUAGE (App.voice_config env)) with
      | Voice.Success text => append_text texto text
      | _ => texto
      end
  end.

(** A computation that hands back the store it was given, whether it
    returns or raises. *)
Definition keeps_store {A} (m : Py A) : Prop := ∀ s, (m s).1.2 = s.

(** One more run of the script in the same process: the files as the
    outside world has left them by then, and the recogniser and the widget
    state of that run. *)
Record Run : Type := {
  run_files : gmap string bytes → gmap string bytes;
  run_world : Voice.World;
  run_request : App.Request
}.

(** The runs of the script in one process, one after the other: the
    session text and the [st.cache_resource] cache pass from one run to the
    next, whether the run ended or raised. What each run returned and
    showed. *)
Fixpoint app_runs (env : App.Env) (runs : list Run) (s : Store)
    : list ((exn + unit) * list event) :=
  match runs with
  | [] => []
  | r :: rs =>
      match App.app env (run_world r) (run_request r) (set_fs (run_files r) s) with
      | (res, s1, shown) => (res, shown) :: app_runs env rs s1
      end
  end.

(** The cache holds nothing, or what [load_models_body] returned and
    showed on the files of some earlier moment. *)
Definition cache_from_loader (env : App.Env) (s : Store) : Prop :=
  ∀ r shown, models_cache s = Some (r, shown) →
    ∃ s0, App.load_models_body env s0 = (inr r, s0, shown).

(** * Proofs *)

(** ** The order of binary64 floats *)

Module FloatOrder.

Local Open Scope float_scope.

Ltac sf_cases :=
  repeat match goal with
  | s : bool |- _ => destruct s
  | |- context [Z.compare ?a ?b] => destruct (Z.compare_spec a b); subst
  | |- context [Pos.compare ?a ?b] => destruct (Pos.compare_spec a b); subst
  | H : context [Z.compare ?a ?b] |- _ => destruct (Z.compare_spec a b); subst
  | H : context [Pos.compare ?a ?b] |- _ => destruct (Pos.compare_spec a b); subst
  end; simpl in *; try congruence; try lia.

Ltac sf_triple x y z :=
  destruct x as [?|?| |? ? ?], y as [?|?| |? ? ?], z as [?|?| |? ? ?];
  simpl; change (PosDef.Pos.compare_cont Eq) with Pos.compare;
  intros; try discriminate; sf_cases.

Lemma SFcompare_antisym (x y : spec_float) :
  SFcompare y x = option_map CompOpp (SFcompare x y).
Proof.
  destruct x as [sx|sx| |sx mx ex], y as [sy|sy| |sy my ey]; simpl; try reflexivity;
    try (destruct sx; reflexivity); try (destruct sy; reflexivity);
    try (destruct sx, sy; reflexivity).
  change (PosDef.Pos.compare_cont Eq) with Pos.compare.
  f_equal. rewrite (Z.compare_antisym ey ex), (Pos.compare_antisym my mx).
  destruct sx, sy, (ey ?= ex)%Z, (my ?= mx)%positive; reflexivity.
Qed.

Lemma SFcompare_trans (x y z : spec_float) (c : comparison) :
  SFcompare x y = Some c → SFcompare y z = Some c → SFcompare x z = Some c.
Proof. revert c. sf_triple x y z. Qed.

Lemma SFcompare_eq_l (x y z : spec_float) (c : comparison) :
  SFcompare x y = Some Eq → SFcompare y z = Some c → SFcompare x z = Some c.
Proof. revert c. sf_triple x y z. Qed.

Lemma SFcompare_eq_r (x y z : spec_float) (c : comparison) :
  SFcompare x y = Some c → SFcompare y z = Some Eq → SFcompare x z = Some c.
Proof. revert c. sf_triple x y z. Qed.

Lemma SFcompare_refl (x : spec_float) :
  SFcompare x x = match x with S754_nan => None | _ => Some Eq end.
Proof.
  destruct x as [s|s| |s m e]; simpl; try reflexivity; [destruct s; reflexivity|].
  change (PosDef.Pos.compare_cont Eq) with Pos.compare.
  rewrite Z.compare_refl, Pos.compare_refl. destruct s; reflexivity.
Qed.

Lemma SFcompare_None (x y : spec_float) :
  SFcompare x y = None → SFcompare x x = None ∨ SFcompare y y = None.
Proof.
  rewrite !SFcompare_refl.
  destruct x as [?|?| |? ? ?], y as [?|?| |? ? ?]; simpl; intros; try discriminate; auto.
Qed.

Import Np.

Lemma number_compare (x : float) :
  number x ↔ SFcompare (Prim2SF x) (Prim2SF x) = Some Eq.
Proof.
  unfold number, is_nan. rewrite FloatAxioms.eqb_spec. unfold SFeqb.
  rewrite SFcompare_refl. destruct (Prim2SF x); simpl; split; congruence.
Qed.

Lemma compare_numbers (x y : float) :
  number x → number y → ∃ c, SFcompare (Prim2SF x) (Prim2SF y) = Some c.
Proof.
  intros Hx%number_compare Hy%number_compare.
  destruct (SFcompare (Prim2SF x) (Prim2SF y)) as [c|] eqn:E; [eauto|].
  apply SFcompare_None in E as [E|E]; congruence.
Qed.

Lemma leb_number_l (x y : float) : (x <=? y) = true → number x.
Proof.
  rewrite FloatAxioms.leb_spec. unfold SFleb. intros H. apply number_compare.
  rewrite SFcompare_refl. destruct (Prim2SF x); try reflexivity. discriminate.
Qed.


Lemma leb_refl (x : float) : number x → (x <=? x) = true.
Proof.
  intros H%number_compare. rewrite FloatAxioms.leb_spec. unfold SFleb. rewrite H. reflexivity.
Qed.

Lemma ltb_leb (x y : float) : (x <? y) = true → (x <=? y) = true.
Proof.
  rewrite FloatAxioms.ltb_spec, FloatAxioms.leb_spec. unfold SFltb, SFleb.
  destruct (SFcompare _ _) as [[]|]; congruence.
Qed.

(** [x <= y] excludes [y < x]. *)
Lemma leb_not_ltb (x y : float) : (x <=? y) = true → (y <? x) = false.
Proof.
  rewrite FloatAxioms.ltb_spec, FloatAxioms.leb_spec. unfold SFltb, SFleb.
  rewrite (SFcompare_antisym (Prim2SF x) (Prim2SF y)).
  destruct (SFcompare _ _) as [[]|]; simpl; congruence.
Qed.

(** On numbers the order is total. *)
Lemma ltb_negb_leb (x y : float) :
  number x → number y → (y <? x) = negb (x <=? y).
Proof.
  intros Hx Hy. rewrite FloatAxioms.ltb_spec, FloatAxioms.leb_spec. unfold SFltb, SFleb.
  rewrite (SFcompare_antisym (Prim2SF x) (Prim2SF y)).
  destruct (compare_numbers x y Hx Hy) as [c ->]. destruct c; reflexivity.
Qed.

Lemma leb_total (x y : float) :
  number x → number y → (x <=? y) = true ∨ (y <=? x) = true.
Proof.
  intros Hx Hy. destruct (x <=? y) eqn:E; [auto|right].
  apply ltb_leb. rewrite (ltb_negb_leb x y), E by assumption. reflexivity.
Qed.


Lemma ltb_leb_trans (x y z : float) :
  (x <? y) = true → (y <=? z) = true → (x <? z) = true.
Proof.
  rewrite !FloatAxioms.ltb_spec, FloatAxioms.leb_spec. unfold SFltb, SFleb.
  destruct (SFcompare (Prim2SF x) (Prim2SF y)) as [[]|] eqn:E1;
    destruct (SFcompare (Prim2SF y) (Prim2SF z)) as [[]|] eqn:E2;
    try discriminate; intros _ _.
  - rewrite (SFcompare_eq_r _ _ _ _ E1 E2). reflexivity.
  - rewrite (SFcompare_trans _ _ _ _ E1 E2). reflexivity.
Qed.

Lemma leb_ltb_trans (x y z : float) :
  (x <=? y) = true → (y <? z) = true → (x <? z) = true.
Proof.
  rewrite !FloatAxioms.ltb_spec, FloatAxioms.leb_spec. unfold SFltb, SFleb.
  destruct (SFcompare (Prim2SF x) (Prim2SF y)) as [[]|] eqn:E1;
    destruct (SFcompare (Prim2SF y) (Prim2SF z)) as [[]|] eqn:E2;
    try discriminate; intros _ _.
  - rewrite (SFcompare_eq_l _ _ _ _ E1 E2). reflexivity.
  - rewrite (SFcompare_trans _ _ _ _ E1 E2). reflexivity.
Qed.

End FloatOrder.

(** ** Strings *)

Lemma lstrip_nil_iff (s : str) : lstrip s = [] ↔ whitespace_only s = true.
Proof.
  unfold whitespace_only.
  induction s as [|c s IH]; simpl; [tauto|].
  destruct (isspace c); simpl; [exact IH|].
  split; discriminate.
Qed.

Lemma lstrip_head (s : str) (c : N) (t : str) :
  lstrip s = c :: t → isspace c = false.
Proof.
  induction s as [|d s IH]; simpl; [discriminate|].
  destruct (isspace d) eqn:Ed; [exact IH|]. congruence.
Qed.

Lemma strip_nil_iff (s : str) : strip s = [] ↔ whitespace_only s = true.
Proof.
  unfold strip, rstrip. split.
  - intros H. apply lstrip_nil_iff.
    destruct (lstrip s) as [|c t] eqn:E; [reflexivity|exfalso].
    assert (Hr : lstrip (rev (c :: t)) = []).
    { rewrite <- (rev_involutive (lstrip _)). rewrite H. reflexivity. }
    apply lstrip_nil_iff in Hr. unfold whitespace_only in Hr.
    rewrite forallb_forall in Hr.
    assert (Hc : isspace c = true).
    { apply Hr, in_rev. rewrite rev_involutive. left. reflexivity. }
    apply lstrip_head in E. congruence.
  - intros H. apply lstrip_nil_iff in H. rewrite H. reflexivity.
Qed.

Example py_decodes_utf8 : py "más" = [109; 225; 115].
Proof. reflexivity. Qed.

Example strip_example : strip (py "  dolor de pecho  ") = py "dolor de pecho".
Proof. reflexivity. Qed.

(** ** [append_text] *)

(** C4: [append_text] (mergeTranscript) returns the incoming text when the
    existing text is empty or made of white space only, and otherwise the
    existing text, one space, and the incoming text, with nothing trimmed or
    removed. *)
Theorem append_text_merge (existing incoming : str) :
  append_text existing incoming =
    if whitespace_only existing then incoming
    else existing ++ [32] ++ incoming.
Proof.
  unfold append_text, str_eqb.
  destruct (whitespace_only existing) eqn:W.
  - apply strip_nil_iff in W. rewrite W.
    rewrite bool_decide_eq_true_2 by reflexivity.
    rewrite orb_true_r. reflexivity.
  - assert (Hs : strip existing ≠ []).
    { intros H. apply strip_nil_iff in H. congruence. }
    rewrite bool_decide_eq_false_2 by exact Hs.
    destruct existing; [discriminate W|]. reflexivity.
Qed.

Example append_text_empty :
  append_text [] (py "fiebre alta") = py "fiebre alta".
Proof. reflexivity. Qed.

Example append_text_join :
  append_text (py "dolor abdominal") (py "y vómitos") = py "dolor abdominal y vómitos".
Proof. vm_compute. reflexivity. Qed.

Example append_text_keeps_repeats :
  append_text (py "tos ") (py " tos") = py "tos   tos".
Proof. vm_compute. reflexivity. Qed.

(** ** The confidence bands *)

Section Bands.
Import Np App FloatOrder.
Local Open Scope float_scope.



Example certeza_just_above_080 : certeza 0.80001 = Alto.
Proof. reflexivity. Qed.

Example certeza_just_above_050 : certeza 0.50001 = Medio.
Proof. reflexivity. Qed.

Example certeza_one : certeza 1 = Alto.
Proof. reflexivity. Qed.

Example certeza_zero : certeza 0 = Bajo.
Proof. reflexivity. Qed.

End Bands.

(** ** [transcribe_audio] *)

Section Transcription.
Import Voice.

Lemma cleanup_temp_file_run (w : World) (path : string) (s : Store) :
  ∃ s' evs,
    cleanup_temp_file w path s = (inr tt, s', evs)
    ∧ texto_completo s' = texto_completo s
    ∧ (fs s' !! path = None ∨ (w_remove w ≠ None ∧ In (EvRemove path) evs))
    ∧ Forall (λ e, e = EvRemove path) evs.
Proof.
  unfold cleanup_temp_file, try_except, bind, os_path_exists, get_store, ret,
    os_remove, bind, emit, modify, outcome, raise, ret.
  cbn.
  destruct (bool_decide (is_Some (fs s !! path))) eqn:Ex.
  - destruct (w_remove w) as [e|] eqn:Er; cbn.
    + eexists _, _. split; [reflexivity|]. split; [reflexivity|]. split.
      * right. split; [discriminate|]. left. reflexivity.
      * repeat constructor.
    + eexists _, _. split; [reflexivity|]. split; [reflexivity|]. split.
      * left. cbn. apply lookup_delete_eq.
      * repeat constructor.
  - cbn. eexists _, _. split; [reflexivity|]. split; [reflexivity|]. split.
    + left. apply bool_decide_eq_false in Ex.
      destruct (fs s !! path) eqn:E; [|reflexivity].
      exfalso. apply Ex. eauto.
    + constructor.
Qed.

(** The deletion's own outcome does not reach the caller. *)
Lemma cleanup_temp_file_result (w : World) (path : string) (s : Store) :
  (cleanup_temp_file w path s).1.1 = inr tt.
Proof.
  destruct (cleanup_temp_file_run w path s) as (s' & evs & E & _). rewrite E. reflexivity.
Qed.

Local Opaque cleanup_temp_file py temp_file.

Ltac use_cleanup w :=
  match goal with
  | |- context [cleanup_temp_file w temp_file ?s] =>
      let s' := fresh "s'" in
      let evs := fresh "evs" in
      let E := fresh "E" in
      let Ht := fresh "Ht" in
      let Hf := fresh "Hf" in
      let He := fresh "He" in
      destruct (cleanup_temp_file_run w temp_file s) as (s' & evs & E & Ht & Hf & He);
      rewrite E; simpl
  end.

Ltac oracle :=
  match goal with
  | |- context [outcome ?o] => destruct o eqn:?; simpl
  | |- context [of_sum ?r] => destruct r eqn:?; simpl
  | |- context [match exn_kind ?e with _ => _ end] => destruct (exn_kind e) eqn:?; simpl
  end.

Ltac in_log :=
  simpl; repeat first [left; reflexivity | assumption | right].

Lemma applies_remove (cfg : VoiceConfig) (w : World) (l : str) (evs : list event)
    (path : string) :
  Forall (λ e, e = EvRemove path) evs → Forall (applies cfg w l) evs.
Proof. intros H. eapply Forall_impl; [exact H|]. intros e ->. exact I. Qed.

(** What one call does, in every world. *)
Lemma transcribe_audio_run (cfg : VoiceConfig) (w : World) (audio : bytes)
    (language : option str) (s : Store) :
  let lang := language_of cfg language in
  ∃ s' evs,
    transcribe_audio cfg w audio language s = (inr (encode (outcome_of w lang)), s', evs)
    ∧ texto_completo s' = texto_completo s
    ∧ (fs s' !! temp_file = None ∨ (w_remove w ≠ None ∧ In (EvRemove temp_file) evs))
    ∧ Forall (applies cfg w lang) evs
    ∧ (w_open w = None → w_write w = None → w_recognizer w = None →
       w_audiofile w = None →
       In (EvAdjustForAmbientNoise (configured cfg) (VOICE_AMBIENT_DURATION cfg)) evs)
    ∧ (∀ d, before_recognition w = inr d →
       In (EvRecognizeGoogle (calibrated cfg w) lang) evs).
Proof.
  intros lang.
  unfold transcribe_audio, outcome_of, before_recognition.
  fold (language_of cfg language). fold lang.
  unfold try_except, bind, open_write, Recognizer_new, AudioFile_enter,
    adjust_for_ambient_noise, record, recognize_google, emit, modify.
  simpl. repeat oracle.
  all: use_cleanup w; rewrite app_nil_r.
  all: eexists _, _; split; [reflexivity|].
  all: split; [exact Ht|].
  all: split; [destruct Hf as [Hf|[Hf1 Hf2]];
               [left; exact Hf|right; split; [exact Hf1|in_log]]|].
  all: split; [repeat (apply Forall_cons; split; [repeat split|]);
               apply applies_remove with temp_file; exact He|].
  all: split; [intros; try discriminate; in_log|].
  all: intros d Hd; try discriminate; in_log.
Qed.

(** The four tags stand for four different triples. *)
Local Transparent py.

Lemma encode_inj (a b : TranscriptionResult) : encode a = encode b → a = b.
Proof.
  pose (probe := λ r : result,
          (r.1.1, nth_error (default [] r.2) 0, nth_error (default [] r.2) 6)).
  intros H. pose proof (f_equal probe H) as P.
  destruct a, b; try (vm_compute in P; discriminate P); unfold encode in H.
  - congruence.
  - reflexivity.
  - injection H as H. congruence.
  - injection H as H. congruence.
Qed.

Lemma outcome_of_remove_ok (w : World) (l : str) :
  outcome_of (with_remove_ok w) l = outcome_of w l.
Proof. reflexivity. Qed.

Lemma msg_nonempty (prefix detail : str) : prefix ≠ [] → prefix ++ detail ≠ [].
Proof. destruct prefix; [congruence|discriminate]. Qed.

(** C5: in every world (success, each failure kind, any exception raised by
    a step) the call returns, and afterwards the temporary file is gone
    unless its deletion was attempted and failed; a failed deletion is
    swallowed: the call returns the triple it returns when the deletion
    succeeds. *)
Theorem temp_file_released (cfg : VoiceConfig) (w : World) (audio : bytes)
    (language : option str) (s : Store) :
  ∃ r s' evs,
    transcribe_audio cfg w audio language s = (inr r, s', evs)
    ∧ (fs s' !! temp_file = None
       ∨ (w_remove w ≠ None ∧ In (EvRemove temp_file) evs))
    ∧ (transcribe_audio cfg (with_remove_ok w) audio language s).1.1 = inr r
    ∧ fs (transcribe_audio cfg (with_remove_ok w) audio language s).1.2
        !! temp_file = None.
Proof.
  destruct (transcribe_audio_run cfg w audio language s)
    as (s' & evs & E & _ & Hf & _).
  destruct (transcribe_audio_run cfg (with_remove_ok w) audio language s)
    as (s2 & evs2 & E2 & _ & Hf2 & _).
  eexists _, s', evs. split; [exact E|]. split; [exact Hf|].
  rewrite E2, outcome_of_remove_ok. split; [reflexivity|].
  destruct Hf2 as [Hf2|[Hf2 _]]; [exact Hf2|]. exfalso. apply Hf2. reflexivity.
Qed.

(** C6: every call returns the triple of exactly one of the four tagged
    outcomes: [Success text] when the service gives a transcript,
    [Unrecognized] when it could not understand the audio, [ServiceError]
    when it is unreachable or rejects the request, and [ProcessingError] for
    any other failure. *)
Theorem transcribe_audio_outcome (cfg : VoiceConfig) (w : World) (audio : bytes)
    (language : option str) (s : Store) :
  (transcribe_audio cfg w audio language s).1.1
    = inr (encode (outcome_of w (language_of cfg language)))
  ∧ ∀ t : TranscriptionResult,
      (transcribe_audio cfg w audio language s).1.1 = inr (encode t) →
      t = outcome_of w (language_of cfg language).
Proof.
  destruct (transcribe_audio_run cfg w audio language s) as (s' & evs & E & _).
  rewrite E. split; [reflexivity|].
  intros t H. simpl in H. injection H as H. symmetry. apply encode_inj. exact H.
Qed.

(** C10: the returned triple has a text and no error message when the flag
    is true, and no text and a non-empty error message when it is false. *)
Theorem transcribe_audio_triple (cfg : VoiceConfig) (w : World) (audio : bytes)
    (language : option str) (s : Store) :
  ∃ success text error_message s' evs,
    transcribe_audio cfg w audio language s
      = (inr (success, text, error_message), s', evs)
    ∧ (success = true → is_Some text ∧ error_message = None)
    ∧ (success = false →
       text = None ∧ ∃ m, error_message = Some m ∧ m ≠ []).
Proof.
  destruct (transcribe_audio_run cfg w audio language s) as (s' & evs & E & _).
  assert (P : py "Error procesando audio: " ≠ []) by (vm_compute; discriminate).
  assert (R : py "Error del servicio de reconocimiento: " ≠ []) by (vm_compute; discriminate).
  assert (U : msg_unknown ≠ []) by (vm_compute; discriminate).
  destruct (outcome_of w (language_of cfg language)) as [t| |d|d];
    unfold encode in E; eexists _, _, _, s', evs; (split; [exact E|]);
    split; intros H; try discriminate H.
  - split; [eexists; reflexivity|reflexivity].
  - split; [reflexivity|]. eexists. split; [reflexivity|exact U].
  - split; [reflexivity|]. eexists. split; [reflexivity|].
    apply msg_nonempty, R.
  - split; [reflexivity|]. eexists. split; [reflexivity|].
    apply msg_nonempty, P.
Qed.

(** C9: the four parameters come from [src.config] when it provides them and
    are "es-ES", 4000, True and 0.5 when it cannot be imported; every call
    hands the engine these values: the recogniser is assigned the configured
    threshold and dynamic flag and is calibrated in that state for the
    configured duration, and the recognition is asked for the configured
    language unless the caller names another; the calibration and the
    recognition are logged whenever the steps before them succeed. After the
    calibration the recogniser keeps the configured flag, and its threshold
    is the one the library computed. *)
Theorem voice_config_applied :
  (∀ m, from_config_import m = None →
     load_config m = {| VOICE_LANGUAGE := py "es-ES";
                        VOICE_ENERGY_THRESHOLD := 4000;
                        VOICE_DYNAMIC_THRESHOLD := true;
                        VOICE_AMBIENT_DURATION := 0.5 |})
  ∧ from_config_import None = None
  ∧ (∀ l e d a,
       load_config (Some {| cfg_VOICE_LANGUAGE := Some l;
                            cfg_VOICE_ENERGY_THRESHOLD := Some e;
                            cfg_VOICE_DYNAMIC_THRESHOLD := Some d;
                            cfg_VOICE_AMBIENT_DURATION := Some a |})
       = {| VOICE_LANGUAGE := l; VOICE_ENERGY_THRESHOLD := e;
            VOICE_DYNAMIC_THRESHOLD := d; VOICE_AMBIENT_DURATION := a |})
  ∧ (∀ m w audio language s,
       let cfg := load_config m in
       let lang := match language with None => VOICE_LANGUAGE cfg | Some l => l end in
       let engine := {| energy_threshold := PyInt (VOICE_ENERGY_THRESHOLD cfg);
                        dynamic_energy_threshold := VOICE_DYNAMIC_THRESHOLD cfg |} in
       let heard := w_ambient w engine (VOICE_AMBIENT_DURATION cfg) in
       ∃ r s' evs,
         transcribe_audio cfg w audio language s = (inr r, s', evs)
         ∧ Forall (applies cfg w lang) evs
         ∧ (w_open w = None → w_write w = None → w_recognizer w = None →
            w_audiofile w = None →
            In (EvAdjustForAmbientNoise engine (VOICE_AMBIENT_DURATION cfg)) evs)
         ∧ (∀ d, before_recognition w = inr d →
            In (EvRecognizeGoogle
                  {| energy_threshold := heard;
                     dynamic_energy_threshold := VOICE_DYNAMIC_THRESHOLD cfg |}
                  lang) evs)).
Proof.
  split; [|split; [|split]].
  - intros m H. unfold load_config. rewrite H. reflexivity.
  - reflexivity.
  - reflexivity.
  - intros m w audio language s cfg lang engine heard.
    destruct (transcribe_audio_run cfg w audio language s)
      as (s' & evs & E & _ & _ & Ha & Hadj & Hrec).
    eexists _, s', evs. split; [exact E|]. split; [exact Ha|].
    split; [exact Hadj|exact Hrec].
Qed.

End Transcription.

(** ** Running a computation step by step *)

Section Running.

Lemma bind_ret {A B} (a : A) (k : A → Py B) (s : Store) :
  bind (ret a) k s = k a s.
Proof. unfold bind, ret. destruct (k a s) as [[r s2] l2]. reflexivity. Qed.

Lemma bind_raise {A B} (e : exn) (k : A → Py B) (s : Store) :
  bind (raise e) k s = (inl e, s, []).
Proof. reflexivity. Qed.

Lemma bind_emit {B} (e : event) (k : unit → Py B) (s : Store) :
  bind (emit e) k s = ((k tt s).1.1, (k tt s).1.2, e :: (k tt s).2).
Proof. unfold bind, emit. destruct (k tt s) as [[r s2] l2]. reflexivity. Qed.

Lemma bind_run {A B} (m : Py A) (k : A → Py B) (s s1 : Store) (a : A)
    (l1 : list event) :
  m s = (inr a, s1, l1) →
  bind m k s = ((k a s1).1.1, (k a s1).1.2, l1 ++ (k a s1).2).
Proof. intros H. unfold bind. rewrite H. destruct (k a s1) as [[r s2] l2]. reflexivity. Qed.

Lemma bind_fail {A B} (m : Py A) (k : A → Py B) (s s1 : Store) (e : exn)
    (l1 : list event) :
  m s = (inl e, s1, l1) → bind m k s = (inl e, s1, l1).
Proof. intros H. unfold bind. rewrite H. reflexivity. Qed.

End Running.

(** ** [np.argmax] and the predicted specialty *)

Section Argmax.
Import Np App FloatOrder.
Local Open Scope float_scope.
Local Open Scope nat_scope.

Lemma all_numbers_Forall (a : list float) :
  all_numbers a = true ↔ Forall number a.
Proof.
  unfold all_numbers, number. rewrite forallb_forall, Forall_forall.
  split; intros H x Hx.
  - apply negb_true_iff, H, list_elem_of_In, Hx.
  - apply negb_true_iff, H, list_elem_of_In, Hx.
Qed.

(** The scan keeps the first maximum of the entries seen so far: [mp] is
    the entry at [k], nothing in [pre] is above it and nothing before [k]
    reaches it. *)
Lemma argmax_from_first_max (l pre : list float) (mp : float) (k : nat) :
  Forall number (pre ++ l) → number mp →
  pre !! k = Some mp →
  (∀ j x, pre !! j = Some x → (x <=? mp)%float = true) →
  (∀ j x, j < k → pre !! j = Some x → (x <? mp)%float = true) →
  ∃ v, (pre ++ l) !! argmax_from mp k (length pre) l = Some v
       ∧ (∀ j x, (pre ++ l) !! j = Some x → (x <=? v)%float = true)
       ∧ (∀ j x, j < argmax_from mp k (length pre) l →
                 (pre ++ l) !! j = Some x → (x <? v)%float = true).
Proof.
  revert pre mp k. induction l as [|x l IH]; intros pre mp k Hn Hmp Hk Hle Hlt.
  - simpl. rewrite app_nil_r. eauto.
  - simpl. rewrite Hmp.
    assert (Hx : number x).
    { rewrite Forall_app, Forall_cons in Hn. tauto. }
    assert (Hpre : (pre ++ x :: l) = (pre ++ [x]) ++ l) by (rewrite <- app_assoc; reflexivity).
    assert (Hlen : S (length pre) = length (pre ++ [x])) by (rewrite length_app; simpl; lia).
    destruct (x <=? mp)%float eqn:E; simpl.
    + rewrite Hpre, Hlen. apply IH.
      * rewrite <- Hpre. exact Hn.
      * exact Hmp.
      * apply lookup_app_l_Some. exact Hk.
      * intros j y Hj. apply lookup_app_Some in Hj as [Hj|[_ Hj]]; [eauto|].
        apply list_lookup_singleton_Some in Hj as [_ <-]. exact E.
      * intros j y Hjk Hj. apply lookup_app_Some in Hj as [Hj|[Hge _]]; [eauto|].
        apply lookup_lt_Some in Hk. lia.
    + assert (Hm : (mp <? x)%float = true).
      { rewrite (ltb_negb_leb x mp Hx Hmp), E. reflexivity. }
      rewrite Hpre, Hlen. apply IH.
      * rewrite <- Hpre. exact Hn.
      * exact Hx.
      * rewrite lookup_app_r by lia.
        replace (length pre - length pre) with 0 by lia. reflexivity.
      * intros j y Hj. apply lookup_app_Some in Hj as [Hj|[_ Hj]].
        -- apply ltb_leb. eapply leb_ltb_trans; [eapply Hle, Hj|exact Hm].
        -- apply list_lookup_singleton_Some in Hj as [_ <-]. apply leb_refl, Hx.
      * intros j y Hjk Hj. apply lookup_app_Some in Hj as [Hj|[Hge _]].
        -- eapply leb_ltb_trans; [eapply Hle, Hj|exact Hm].
        -- lia.
Qed.

(** C7: when the analysis runs on a text of at least 10 characters and the
    classifier returns a non-empty distribution of numbers, with a decoder
    holding one label per class, the index the page decodes is
    [np.argmax] of the distribution: an index of maximal probability with
    every entry before it strictly smaller (so ties go to the lowest
    index). The page asks the decoder for that index alone and the card it
    shows carries the label the decoder holds there, before the urgency
    scorer is called. *)
Theorem argmax_lowest_index (env : Env) (model : Model) (le : LabelEncoder)
    (texto_input : str) (pred_probs : list float) (s : Store) :
  (10 <= len texto_input)%Z →
  predict_proba model (limpiar_texto_medico env texto_input) = pred_probs →
  pred_probs ≠ [] →
  all_numbers pred_probs = true →
  length (classes_ le) = length pred_probs →
  ∃ max_idx confidence especialidad_pred rest,
    Np.argmax pred_probs = Some max_idx
    ∧ pred_probs !! max_idx = Some confidence
    ∧ (∀ j x, pred_probs !! j = Some x → (x <=? confidence)%float = true)
    ∧ (∀ j x, j < max_idx → pred_probs !! j = Some x → (x <? confidence)%float = true)
    ∧ classes_ le !! max_idx = Some especialidad_pred
    ∧ (analysis env model (Some le) true texto_input s).2
      = [CallLimpiarTextoMedico texto_input;
         CallPredictProba (limpiar_texto_medico env texto_input);
         CallInverseTransform [max_idx]]
        ++ (diagnosis_card confidence especialidad_pred s).2
        ++ CallCalcularPrioridad texto_input :: rest.
Proof.
  intros Hten Hp Hne Hnum%all_numbers_Forall Hlen.
  assert (Ht : truthy texto_input = true).
  { clear -Hten. destruct texto_input; [unfold len in Hten; simpl in Hten; lia|reflexivity]. }
  assert (Hz : (len texto_input <? 10)%Z = false) by (apply Z.ltb_ge; exact Hten).
  unfold analysis. rewrite Ht, Hz. cbn [andb]. cbv zeta. rewrite Hp. clear Hp.
  destruct pred_probs as [|x l]; [congruence|].
  destruct (argmax_from_first_max l [x] x 0) as (v & Hv & Hmax & Hfirst).
  - exact Hnum.
  - apply Forall_cons in Hnum. tauto.
  - reflexivity.
  - intros [|j] y Hj; simpl in Hj; [|discriminate].
    injection Hj as <-. apply leb_refl. apply Forall_cons in Hnum. tauto.
  - intros j y Hj. lia.
  - simpl in Hv, Hmax, Hfirst.
    assert (Hlt : argmax_from x 0 1 l < length (classes_ le)).
    { rewrite Hlen. eapply lookup_lt_Some. exact Hv. }
    destruct (lookup_lt_is_Some_2 _ _ Hlt) as [label Hlabel].
    exists (argmax_from x 0 1 l), v, label.
    assert (Hinv : inverse_transform (Some le) [argmax_from x 0 1 l] s
                   = (inr [label], s, [CallInverseTransform [argmax_from x 0 1 l]])).
    { unfold inverse_transform, bind, emit, take_idx. simpl.
      rewrite Hlabel. reflexivity. }
    assert (Hcard : diagnosis_card v label s
                    = (inr tt, s, (diagnosis_card v label s).2)).
    { unfold diagnosis_card. destruct (certeza v); reflexivity. }
    eexists.
    split; [reflexivity|]. split; [exact Hv|]. split; [exact Hmax|].
    split; [exact Hfirst|]. split; [exact Hlabel|].
    rewrite bind_emit. cbn [fst snd]. rewrite bind_emit. cbn [fst snd].
    change (argmax (x :: l)) with (Some (argmax_from x 0 1 l)).
    cbv beta iota. rewrite bind_ret. unfold index at 1. rewrite Hv, bind_ret.
    rewrite (bind_run _ _ _ _ _ _ Hinv). cbn [fst snd].
    unfold index at 1. cbn [lookup list_lookup]. rewrite bind_ret.
    rewrite (bind_run _ _ _ _ _ _ Hcard). cbn [fst snd].
    rewrite bind_emit. cbn [fst snd app]. reflexivity.
Qed.

Lemma argmax_lowest_index_witness :
  ∃ rest,
    (analysis Fixture.env {| predict_proba := λ _, [0.2; 0.4; 0.4]%float |}
       (Some Fixture.le) true (py "dolor de cabeza intenso") Fixture.store_ok).2
    = [CallLimpiarTextoMedico (py "dolor de cabeza intenso");
       CallPredictProba (py "dolor de cabeza intenso");
       CallInverseTransform [1];
       StError (py "### Neurología");
       StCaption (py "Nivel de certeza: Bajo (Requiere valoración humana)");
       CallCalcularPrioridad (py "dolor de cabeza intenso")] ++ rest.
Proof.
  destruct (argmax_lowest_index Fixture.env
              {| predict_proba := λ _, [0.2; 0.4; 0.4]%float |} Fixture.le
              (py "dolor de cabeza intenso") [0.2; 0.4; 0.4]%float Fixture.store_ok)
    as (i & c & e & rest & Hi & Hc & _ & _ & He & Hlog).
  - vm_compute. discriminate.
  - reflexivity.
  - discriminate.
  - reflexivity.
  - reflexivity.
  - injection Hi as <-. injection Hc as <-. injection He as <-.
    exists rest. rewrite Hlog. reflexivity.
Defined.

Example argmax_tie : Np.argmax [0.2; 0.4; 0.4]%float = Some 1.
Proof. reflexivity. Qed.

Example argmax_tie_first : Np.argmax [0.5; 0.5]%float = Some 0.
Proof. reflexivity. Qed.

End Argmax.

(** ** [np.argsort] and the top-3 view *)

Section Top3.
Import Np App FloatOrder.
Local Open Scope nat_scope.

Local Abbreviation ins := (λ acc x, insert_sorted x acc).

Lemma less_number (a b : float) : number b → less a b = (a <? b)%float.
Proof. unfold less, number. intros ->. simpl. apply orb_false_r. Qed.

Lemma insert_sorted_perm (x : nat * float) (l : list (nat * float)) :
  insert_sorted x l ≡ₚ x :: l.
Proof.
  induction l as [|y l IH]; simpl; [reflexivity|].
  destruct (less x.2 y.2); [reflexivity|].
  rewrite IH. apply perm_swap.
Qed.

Lemma fold_insert_perm (l acc : list (nat * float)) :
  fold_left ins l acc ≡ₚ l ++ acc.
Proof.
  revert acc. induction l as [|x l IH]; intros acc; simpl; [reflexivity|].
  rewrite IH, insert_sorted_perm. symmetry. apply Permutation_middle.
Qed.

Lemma sort_pairs_perm (l : list (nat * float)) : sort_pairs l ≡ₚ l.
Proof. unfold sort_pairs. rewrite fold_insert_perm, app_nil_r. reflexivity. Qed.

Lemma insert_sorted_sorted (x : nat * float) (l : list (nat * float)) :
  number x.2 → Forall (λ q, number q.2) l → Forall (λ q, q.1 < x.1) l →
  StronglySorted before l → StronglySorted before (insert_sorted x l).
Proof.
  intros Hx. induction l as [|y l IH]; intros Hn Hi Hs; simpl.
  - repeat constructor.
  - apply Forall_cons in Hn as [Hy Hn]. apply Forall_cons in Hi as [Hyi Hi].
    apply StronglySorted_cons in Hs as [Hyl Hs].
    rewrite (less_number _ _ Hy).
    destruct (x.2 <? y.2)%float eqn:E.
    + apply StronglySorted_cons. split.
      * apply Forall_cons. split.
        -- split; [apply ltb_leb, E|]. intros C. apply leb_not_ltb in C. congruence.
        -- eapply Forall_impl; [exact Hyl|]. intros z [Hz _].
           pose proof (ltb_leb_trans _ _ _ E Hz) as Hxz.
           split; [apply ltb_leb, Hxz|]. intros C. apply leb_not_ltb in C. congruence.
      * apply StronglySorted_cons. split; assumption.
    + assert (Hyx : (y.2 <=? x.2)%float = true).
      { rewrite (ltb_negb_leb y.2 x.2 Hy Hx) in E. apply negb_false_iff, E. }
      apply StronglySorted_cons. split.
      * rewrite insert_sorted_perm. apply Forall_cons. split; [|exact Hyl].
        split; [exact Hyx|]. intros _. exact Hyi.
      * apply IH; assumption.
Qed.

Lemma enumerate_from_lookup (a : list float) (i j : nat) (v : float) :
  (j, v) ∈ enumerate_from i a ↔ ∃ k, j = i + k ∧ a !! k = Some v.
Proof.
  revert i. induction a as [|x a IH]; intros i; simpl.
  - split; [intros H; inversion H|intros (k & _ & H); discriminate].
  - rewrite elem_of_cons, IH. split.
    + intros [E|(k & -> & Hk)].
      * injection E as -> ->. exists 0. split; [lia|reflexivity].
      * exists (S k). split; [lia|exact Hk].
    + intros ([|k] & -> & Hk).
      * left. simpl in Hk. injection Hk as ->. f_equal. lia.
      * right. exists k. split; [lia|exact Hk].
Qed.

Lemma enumerate_from_fst (a : list float) (i : nat) :
  (enumerate_from i a).*1 = seq i (length a).
Proof.
  revert i. induction a as [|x a IH]; intros i; simpl; [reflexivity|].
  rewrite IH. reflexivity.
Qed.

Lemma fold_insert_sorted (a : list float) (i : nat) (acc : list (nat * float)) :
  Forall number a → Forall (λ q, number q.2) acc → Forall (λ q, q.1 < i) acc →
  StronglySorted before acc →
  StronglySorted before (fold_left ins (enumerate_from i a) acc).
Proof.
  revert i acc. induction a as [|x a IH]; intros i acc Ha Hn Hi Hs; simpl.
  - exact Hs.
  - apply Forall_cons in Ha as [Hx Ha]. apply IH.
    + exact Ha.
    + rewrite insert_sorted_perm. apply Forall_cons. split; assumption.
    + rewrite insert_sorted_perm. apply Forall_cons. split; [simpl; lia|].
      eapply Forall_impl; [exact Hi|]. simpl. intros; lia.
    + apply insert_sorted_sorted; assumption.
Qed.

Lemma sort_pairs_sorted (a : list float) :
  Forall number a → StronglySorted before (sort_pairs (enumerate a)).
Proof.
  intros Ha. unfold sort_pairs, enumerate.
  apply fold_insert_sorted; [exact Ha|constructor|constructor|constructor].
Qed.

Lemma StronglySorted_lookup {A} (R : relation A) (l : list A) (i j : nat) (x y : A) :
  StronglySorted R l → i < j → l !! i = Some x → l !! j = Some y → R x y.
Proof.
  intros Hs Hij Hi Hj.
  rewrite <- (take_drop j l) in Hs.
  apply (StronglySorted_app_1_elem_of R _ _ x y Hs).
  - apply list_elem_of_lookup. exists i. rewrite lookup_take_lt by exact Hij. exact Hi.
  - apply list_elem_of_lookup. exists 0. rewrite lookup_drop.
    replace (j + 0) with j by lia. exact Hj.
Qed.

Lemma sorted_pair_lookup (a : list float) (i : nat) (x : float) :
  (i, x) ∈ sort_pairs (enumerate a) ↔ a !! i = Some x.
Proof.
  rewrite sort_pairs_perm. unfold enumerate. rewrite enumerate_from_lookup.
  split; [intros (k & -> & Hk); exact Hk|intros H; exists i; split; [lia|exact H]].
Qed.

Lemma sort_pairs_fst (a : list float) :
  (sort_pairs (enumerate a)).*1 ≡ₚ seq 0 (length a).
Proof.
  rewrite sort_pairs_perm. unfold enumerate. rewrite enumerate_from_fst. reflexivity.
Qed.

(** The stable sort is one of the orders [np.argsort] may return. *)
Lemma argsort_is_argsort (a : list float) :
  Forall number a → is_argsort a (argsort_stable a).
Proof.
  intros Hnum. split; [apply sort_pairs_fst|].
  intros u v i j x y Huv Hu Hv Hx Hy. unfold argsort_stable in Hu, Hv.
  apply list_lookup_fmap_Some in Hu as ([i' x'] & -> & Hu).
  apply list_lookup_fmap_Some in Hv as ([j' y'] & -> & Hv).
  simpl in Hx, Hy.
  assert (x' = x) as ->.
  { assert (H : (i', x') ∈ sort_pairs (enumerate a))
      by (apply list_elem_of_lookup; eauto).
    apply sorted_pair_lookup in H. congruence. }
  assert (y' = y) as ->.
  { assert (H : (j', y') ∈ sort_pairs (enumerate a))
      by (apply list_elem_of_lookup; eauto).
    apply sorted_pair_lookup in H. congruence. }
  pose proof (sort_pairs_sorted a Hnum) as Hs.
  exact (proj1 (StronglySorted_lookup before _ _ _ _ _ Hs Huv Hu Hv)).
Qed.

(** Whatever ascending order the sort returns, the reversed tail is
    descending and holds the largest entries. *)
Lemma top3_of_argsort (a : list float) (idx : list nat) :
  is_argsort a idx →
  length (top3_of idx) = 3 `min` length a
  ∧ NoDup (top3_of idx)
  ∧ (∀ u v i j,
       u < v → top3_of idx !! u = Some i → top3_of idx !! v = Some j →
       ∃ x y, a !! i = Some x ∧ a !! j = Some y ∧ (y <=? x)%float = true)
  ∧ (∀ i j x y,
       i ∈ top3_of idx → j ∉ top3_of idx →
       a !! i = Some x → a !! j = Some y → (y <=? x)%float = true).
Proof.
  intros [Hperm Hasc]. unfold top3_of, last_k.
  assert (Hlen : length idx = length a).
  { rewrite Hperm. apply length_seq. }
  rewrite Hlen. set (k := length a - 3).
  assert (Hdom : ∀ i, i ∈ idx → ∃ x, a !! i = Some x).
  { intros i Hi. rewrite Hperm in Hi. apply elem_of_seq in Hi.
    apply lookup_lt_is_Some_2. lia. }
  assert (Hback : ∀ i, i ∈ drop k idx ↔ ∃ u, k ≤ u ∧ idx !! u = Some i).
  { intros i. rewrite list_elem_of_lookup. split.
    - intros [u Hu]. rewrite lookup_drop in Hu. exists (k + u). split; [lia|exact Hu].
    - intros (u & Hk & Hu). exists (u - k). rewrite lookup_drop.
      replace (k + (u - k)) with u by lia. exact Hu. }
  split; [|split; [|split]].
  - rewrite length_reverse, length_drop, Hlen. lia.
  - rewrite reverse_Permutation.
    assert (Hnd : NoDup idx) by (rewrite Hperm; apply NoDup_seq).
    rewrite <- (take_drop k idx) in Hnd. apply NoDup_app in Hnd. tauto.
  - intros u v i j Huv Hu Hv.
    apply reverse_lookup_Some in Hu as [Hu Hlu].
    apply reverse_lookup_Some in Hv as [Hv Hlv].
    rewrite lookup_drop in Hu, Hv.
    destruct (Hdom i) as [x Hx]; [apply list_elem_of_lookup; eauto|].
    destruct (Hdom j) as [y Hy]; [apply list_elem_of_lookup; eauto|].
    exists x, y. split; [exact Hx|]. split; [exact Hy|].
    refine (Hasc _ _ _ _ _ _ _ Hv Hu Hy Hx). lia.
  - intros i j x y Hi Hj Hx Hy.
    apply elem_of_reverse, Hback in Hi as (v & Hkv & Hv).
    assert (Hjin : j ∈ idx).
    { rewrite Hperm. apply elem_of_seq. apply lookup_lt_Some in Hy. lia. }
    apply list_elem_of_lookup in Hjin as [u Hu].
    destruct (decide (k ≤ u)) as [Hku|Hku].
    + exfalso. apply Hj, elem_of_reverse, Hback. eauto.
    + refine (Hasc _ _ _ _ _ _ _ Hu Hv Hy Hx). lia.
Qed.

(** C8 (amended): for a distribution of numbers the top-3 view holds
    min(3, n) distinct indices in non-increasing order of probability, and
    no index left out has a higher probability than a listed one; this holds
    for every ascending order [np.argsort] may return, and there is always
    one (the stable order). The order of entries of equal probability is
    not fixed by the code. *)
Theorem top3_descending (pred_probs : list float) :
  all_numbers pred_probs = true →
  is_argsort pred_probs (argsort_stable pred_probs)
  ∧ (∀ idx, is_argsort pred_probs idx →
       length (top3_of idx) = 3 `min` length pred_probs
       ∧ NoDup (top3_of idx)
       ∧ (∀ u v i j,
            u < v → top3_of idx !! u = Some i → top3_of idx !! v = Some j →
            ∃ x y, pred_probs !! i = Some x ∧ pred_probs !! j = Some y
                   ∧ (y <=? x)%float = true)
       ∧ (∀ i j x y,
            i ∈ top3_of idx → j ∉ top3_of idx →
            pred_probs !! i = Some x → pred_probs !! j = Some y →
            (y <=? x)%float = true)).
Proof.
  intros Hnum%all_numbers_Forall.
  split; [apply argsort_is_argsort, Hnum|].
  intros idx; apply top3_of_argsort.
Qed.

Lemma top3_descending_witness :
  top3_of (argsort_stable [0.1; 0.6; 0.05; 0.25]%float) = [1; 3; 0]
  ∧ is_argsort [0.1; 0.6; 0.05; 0.25]%float
      (argsort_stable [0.1; 0.6; 0.05; 0.25]%float)
  ∧ length (top3_of (argsort_stable [0.1; 0.6; 0.05; 0.25]%float)) = 3 `min` 4.
Proof.
  split; [reflexivity|].
  destruct (top3_descending [0.1; 0.6; 0.05; 0.25]%float) as (Ha & Hall);
    [reflexivity|].
  split; [exact Ha|]. exact (proj1 (Hall _ Ha)).
Defined.

(** C8 as stated fails: in the distribution [0.4, 0.4, 0.2] the first two
    entries are equal; [2, 0, 1] is an ascending order of it (the one a
    stable sort gives), and with it the view lists index 1 before index 0,
    while [np.argmax] picks index 0. *)
Lemma top3_ties_counterexample :
  is_argsort [0.4; 0.4; 0.2]%float [2; 0; 1]
  ∧ argsort_stable [0.4; 0.4; 0.2]%float = [2; 0; 1]
  ∧ top3_of [2; 0; 1] = [1; 0; 2]
  ∧ Np.argmax [0.4; 0.4; 0.2]%float = Some 0
  ∧ ¬ ties_in_index_order [0.4; 0.4; 0.2]%float (top3_of [2; 0; 1]).
Proof.
  split.
  { change [2; 0; 1] with (argsort_stable [0.4; 0.4; 0.2]%float).
    apply argsort_is_argsort, all_numbers_Forall. reflexivity. }
  split; [reflexivity|]. split; [reflexivity|]. split; [reflexivity|].
  intros H. specialize (H 0 1 1 0 0.4%float 0.4%float).
  assert (C : 1 < 0); [|lia].
  apply H; first [lia | reflexivity].
Qed.

End Top3.

(** ** The analysis block and the degraded mode *)

Section Page.
Import App.

(** C1 (amended): a text of fewer than 10 characters, counted as typed, gets
    one validation message and nothing else: the "too brief" warning when it
    is not empty, the "enter a description" error when it is; no component
    is called. *)
Theorem analysis_short_text (env : Env) (model : Model) (le : option LabelEncoder)
    (texto_input : str) (s : Store) :
  (len texto_input < 10)%Z →
  analysis env model le true texto_input s
    = (inr tt, s, [if truthy texto_input then StWarning msg_breve
                   else StError msg_vacio]).
Proof.
  intros H. unfold analysis.
  destruct texto_input as [|c t]; [reflexivity|].
  change (truthy (c :: t)) with true. cbv beta iota. simpl andb. cbv iota.
  apply Z.ltb_lt in H. rewrite H. reflexivity.
Qed.

Lemma analysis_short_text_witness :
  analysis Fixture.env Fixture.model (Some Fixture.le) true (py "tos") Fixture.store_ok
    = (inr tt, Fixture.store_ok, [StWarning msg_breve]).
Proof.
  apply (analysis_short_text Fixture.env Fixture.model (Some Fixture.le)
           (py "tos") Fixture.store_ok).
  vm_compute. reflexivity.
Defined.

(** C1 as stated fails: ten characters of which five are trailing blanks
    have a trimmed length of 5, and the block runs the whole analysis on
    them, starting with the cleaner and the classifier. *)
Lemma analysis_trimmed_counterexample :
  len (strip (py "dolor     ")) = 5%Z
  ∧ firstn 2 (analysis Fixture.env Fixture.model (Some Fixture.le) true
                (py "dolor     ") Fixture.store_ok).2
    = [CallLimpiarTextoMedico (py "dolor     "); CallPredictProba (py "dolor")]
  ∧ existsb Fixture.is_component_call
      (analysis Fixture.env Fixture.model (Some Fixture.le) true
         (py "dolor     ") Fixture.store_ok).2 = true
  ∧ ¬ In (StWarning msg_breve)
        (analysis Fixture.env Fixture.model (Some Fixture.le) true
           (py "dolor     ") Fixture.store_ok).2.
Proof.
  split; [reflexivity|]. split; [vm_compute; reflexivity|].
  split; [vm_compute; reflexivity|].
  intros H. vm_compute in H. intuition discriminate.
Qed.

Lemma load_models_body_absent (env : Env) (s : Store) :
  fs s !! MODEL_SVM_PATH env = None ∨ fs s !! LABEL_ENCODER_PATH env = None →
  load_models_body env s = (inr (None, None), s, []).
Proof.
  intros H. unfold load_models_body, try_except, bind, get_store. cbv beta iota.
  assert (C : negb (bool_decide (is_Some (fs s !! MODEL_SVM_PATH env)))
              || negb (bool_decide (is_Some (fs s !! LABEL_ENCODER_PATH env))) = true).
  { destruct H as [H|H]; rewrite H.
    - reflexivity.
    - apply orb_true_r. }
  rewrite C. reflexivity.
Qed.

Lemma load_models_hit (env : Env) (s : Store)
    (r : option Model * option LabelEncoder) (shown : list event) :
  models_cache s = Some (r, shown) → load_models env s = (inr r, s, shown).
Proof. intros H. unfold load_models. rewrite H. reflexivity. Qed.

Lemma load_template_run (t : Templates.Files) (filename : string) (s : Store) :
  Templates.load_template t filename s
    = ((Templates.load_template t filename s).1.1, s, []).
Proof.
  unfold Templates.load_template, bind, get_store. cbv beta iota.
  destruct (fs s !! Templates.path_of t filename) as [b|]; [|reflexivity].
  destruct (Templates.read_text t b); reflexivity.
Qed.

Lemma load_css_run (t : Templates.Files) (s : Store) :
  Templates.load_css t s = ((Templates.load_css t s).1.1, s, []).
Proof.
  unfold Templates.load_css, bind. rewrite (load_template_run t "styles.css" s).
  cbn [fst snd]. destruct (Templates.load_template t "styles.css" s).1.1; reflexivity.
Qed.

Lemma st_image_run (path : string) (s : Store) :
  st_image path s
  = match fs s !! path with
    | Some _ => (inr tt, s, [StImage path])
    | None => (inl (Exn OtherException (py "Error opening " ++ py path)), s, [])
    end.
Proof.
  unfold st_image, bind, get_store. cbv beta iota.
  destruct (fs s !! path); reflexivity.
Qed.

Lemma page_body_degraded (env : Env) (w : Voice.World) (req : Request)
    (le : option LabelEncoder) (s : Store) :
  page_body env w req (None, le) s = (inr tt, s, degraded_log).
Proof. reflexivity. Qed.

(** What a run shows once the cache holds "no model": the stylesheet and
    the logo if they can be read, then the status and the warning. *)
Lemma app_degraded (env : Env) (w : Voice.World) (req : Request) (s : Store) :
  models_cache s = Some ((None, None), []) →
  app env w req s
  = match (Templates.load_css (templates env) s).1.1 with
    | inl e => (inl e, s, [])
    | inr css =>
        match fs s !! LOGO_PATH env with
        | None => (inl (Exn OtherException (py "Error opening " ++ py (LOGO_PATH env))),
                   s, [StMarkdown css])
        | Some _ => (inr tt, s, [StMarkdown css; StImage (LOGO_PATH env)] ++ degraded_log)
        end
    end.
Proof.
  intros Hc. pose proof (load_css_run (templates env) s) as Hcss.
  destruct (Templates.load_css (templates env) s) as [[r s0] l0] eqn:E.
  cbn [fst snd] in Hcss. injection Hcss as -> ->. cbn [fst snd].
  unfold app. destruct r as [e|css].
  - rewrite (bind_fail _ _ _ _ _ _ E). reflexivity.
  - rewrite (bind_run _ _ _ _ _ _ E). cbn [fst snd app].
    rewrite bind_emit. cbn [fst snd].
    rewrite (bind_run _ _ _ _ _ _ (load_models_hit env s _ _ Hc)). cbn [fst snd app].
    pose proof (st_image_run (LOGO_PATH env) s) as Him.
    destruct (fs s !! LOGO_PATH env).
    + rewrite (bind_run _ _ _ _ _ _ Him). cbn [fst snd].
      rewrite (page_body_degraded env w req None s). reflexivity.
    + rewrite (bind_fail _ _ _ _ _ _ Him). reflexivity.
Qed.

Lemma degraded_log_quiet :
  Forall (λ e, Fixture.is_component_call e = false ∧ is_voice_event e = false)
    degraded_log.
Proof. repeat constructor. Qed.

Lemma load_models_first_absent (env : Env) (s : Store) :
  models_cache s = None →
  fs s !! MODEL_SVM_PATH env = None ∨ fs s !! LABEL_ENCODER_PATH env = None →
  load_models env s
    = (inr (None, None), set_models_cache (Some ((None, None), [])) s, []).
Proof.
  intros Hc H. unfold load_models. rewrite Hc, (load_models_body_absent env s H).
  reflexivity.
Qed.

(** Once the cache holds "no model", no later run of the process does any
    work, whatever the files, the recogniser and the widgets of that run. *)
Lemma app_runs_degraded (env : Env) (runs : list Run) (s : Store) :
  models_cache s = Some ((None, None), []) →
  Forall (λ out, Forall (λ e, Fixture.is_component_call e = false
                              ∧ is_voice_event e = false) out.2
                 ∧ (out.1 = inr tt → last out.2 = Some StStop))
    (app_runs env runs s).
Proof.
  revert s. induction runs as [|r rs IH]; intros s Hc; [constructor|].
  cbn [app_runs].
  assert (Hc' : models_cache (set_fs (run_files r) s) = Some ((None, None), []))
    by exact Hc.
  rewrite (app_degraded env (run_world r) (run_request r) _ Hc').
  destruct (Templates.load_css (templates env) (set_fs (run_files r) s)).1.1
    as [e|css].
  - constructor; [|apply IH, Hc'].
    split; [constructor|discriminate].
  - destruct (fs (set_fs (run_files r) s) !! LOGO_PATH env).
    + constructor; [|apply IH, Hc'].
      split; [|reflexivity].
      cbn [snd app]. repeat constructor.
    + constructor; [|apply IH, Hc'].
      split; [repeat constructor|discriminate].
Qed.

(** C2 (amended): when either artifact is absent the first time
    [load_models] runs, it yields no model and that answer is cached for the
    life of the process. The run that called it keeps the answer even if it
    fails later on, and when the stylesheet and the logo can be read it
    shows them, the "disconnected" status and the warning, and stops. From
    then on every run, whatever the request and whatever the files have
    become, gets the cached answer and ends at the same place: nothing is
    classified, and no transcription, urgency scoring or referral routing
    takes place either. *)
Theorem degraded_mode_stops (env : Env) (s : Store) :
  models_cache s = None →
  fs s !! MODEL_SVM_PATH env = None ∨ fs s !! LABEL_ENCODER_PATH env = None →
  load_models env s
    = (inr (None, None), set_models_cache (Some ((None, None), [])) s, [])
  ∧ (∀ w req css,
       (Templates.load_css (templates env) s).1.1 = inr css →
       models_cache (app env w req s).1.2 = Some ((None, None), [])
       ∧ (is_Some (fs s !! LOGO_PATH env) →
          app env w req s
            = (inr tt, set_models_cache (Some ((None, None), [])) s,
               [StMarkdown css; StImage (LOGO_PATH env)] ++ degraded_log)))
  ∧ (∀ s', models_cache s' = Some ((None, None), []) →
       (∀ w req,
          load_models env s' = (inr (None, None), s', [])
          ∧ run_page env w req s' = (inr tt, s', degraded_log)
          ∧ app env w req s'
            = match (Templates.load_css (templates env) s').1.1 with
              | inl e => (inl e, s', [])
              | inr css =>
                  match fs s' !! LOGO_PATH env with
                  | None =>
                      (inl (Exn OtherException
                              (py "Error opening " ++ py (LOGO_PATH env))),
                       s', [StMarkdown css])
                  | Some _ =>
                      (inr tt, s',
                       [StMarkdown css; StImage (LOGO_PATH env)] ++ degraded_log)
                  end
              end)
       ∧ ∀ runs,
           Forall (λ out, Forall (λ e, Fixture.is_component_call e = false
                                       ∧ is_voice_event e = false) out.2
                          ∧ (out.1 = inr tt → last out.2 = Some StStop))
             (app_runs env runs s')).
Proof.
  intros Hc H.
  pose proof (load_models_first_absent env s Hc H) as Hload.
  split; [exact Hload|]. split.
  - intros w req css Hcss.
    pose proof (load_css_run (templates env) s) as E. rewrite Hcss in E.
    unfold app. rewrite (bind_run _ _ _ _ _ _ E). cbn [fst snd app].
    rewrite bind_emit. cbn [fst snd].
    rewrite (bind_run _ _ _ _ _ _ Hload). cbn [fst snd app].
    pose proof (st_image_run (LOGO_PATH env)
                  (set_models_cache (Some ((None, None), [])) s)) as Him.
    change (fs (set_models_cache (Some ((None, None), [])) s)) with (fs s) in Him.
    destruct (fs s !! LOGO_PATH env) as [b|].
    + rewrite (bind_run _ _ _ _ _ _ Him). cbn [fst snd].
      rewrite (page_body_degraded env w req None _).
      split; [reflexivity|]. intros _. reflexivity.
    + rewrite (bind_fail _ _ _ _ _ _ Him).
      split; [reflexivity|]. intros [b Hb]. discriminate.
  - intros s' Hc'. split; [|intros runs; apply app_runs_degraded, Hc'].
    intros w req. split; [apply load_models_hit, Hc'|].
    split; [|apply app_degraded, Hc'].
    unfold run_page. rewrite (bind_run _ _ _ _ _ _ (load_models_hit env s' _ _ Hc')).
    cbn [fst snd]. rewrite (page_body_degraded env w req None s'). reflexivity.
Qed.

Lemma degraded_mode_stops_witness :
  load_models Fixture.env Fixture.store_degraded
    = (inr (None, None),
       set_models_cache (Some ((None, None), [])) Fixture.store_degraded, [])
  ∧ ∀ runs,
      Forall (λ out, Forall (λ e, Fixture.is_component_call e = false
                                  ∧ is_voice_event e = false) out.2
                     ∧ (out.1 = inr tt → last out.2 = Some StStop))
        (app_runs Fixture.env runs
           (set_models_cache (Some ((None, None), [])) Fixture.store_degraded)).
Proof.
  destruct (degraded_mode_stops Fixture.env Fixture.store_degraded)
    as (H1 & _ & H3).
  - reflexivity.
  - right. vm_compute. reflexivity.
  - split; [exact H1|]. intros runs.
    exact (proj2 (H3 (set_models_cache (Some ((None, None), [])) Fixture.store_degraded)
                    eq_refl) runs).
Defined.

(** C2 as stated fails: with the label decoder missing, a request that is
    scored and routed when both artifacts are present is neither scored nor
    routed; the run ends at [st.stop()]. *)
Lemma degraded_mode_counterexample :
  fs Fixture.store_degraded !! LABEL_ENCODER_PATH Fixture.env = None
  ∧ existsb Fixture.is_urgency_or_referral_call
      (app Fixture.env Fixture.world
         (Fixture.request (py "Dolor abdominal intenso desde hace 2 horas"))
         Fixture.store_ok).2 = true
  ∧ existsb Fixture.is_urgency_or_referral_call
      (app Fixture.env Fixture.world
         (Fixture.request (py "Dolor abdominal intenso desde hace 2 horas"))
         Fixture.store_degraded).2 = false
  ∧ last (app Fixture.env Fixture.world
            (Fixture.request (py "Dolor abdominal intenso desde hace 2 horas"))
            Fixture.store_degraded).2 = Some StStop.
Proof.
  split; [vm_compute; reflexivity|]. split; [vm_compute; reflexivity|].
  split; vm_compute; reflexivity.
Qed.

End Page.

(** * Further properties *)

(** ** Merging transcripts *)

Section Merging.

Lemma append_text_cases (a b : str) :
  append_text a b = if whitespace_only a then b else a ++ [32] ++ b.
Proof.
  unfold append_text, str_eqb.
  destruct (whitespace_only a) eqn:W.
  - apply strip_nil_iff in W. rewrite W, bool_decide_eq_true_2 by reflexivity.
    rewrite orb_true_r. reflexivity.
  - assert (Hs : strip a ≠ []) by (intros H%strip_nil_iff; congruence).
    rewrite bool_decide_eq_false_2 by exact Hs.
    destruct a; [discriminate W|reflexivity].
Qed.

Lemma whitespace_only_append_text (a b : str) :
  whitespace_only (append_text a b) = whitespace_only a && whitespace_only b.
Proof.
  rewrite append_text_cases. destruct (whitespace_only a) eqn:W; [reflexivity|].
  unfold whitespace_only in *. rewrite forallb_app, W. reflexivity.
Qed.

(** X1: the merged text is blank exactly when both texts are: merging never
    turns real text into a blank one, nor two blanks into text. *)
Theorem append_text_blank (a b : str) :
  whitespace_only (append_text a b) = whitespace_only a && whitespace_only b.
Proof.
  rewrite append_text_cases. destruct (whitespace_only a) eqn:W; [reflexivity|].
  unfold whitespace_only in *. rewrite forallb_app, W. reflexivity.
Qed.

(** X2: merging is associative as soon as the middle text is not blank. *)
Theorem append_text_assoc (a b c : str) :
  whitespace_only b = false →
  append_text (append_text a b) c = append_text a (append_text b c).
Proof.
  intros Hb.
  rewrite (append_text_cases (append_text a b) c), whitespace_only_append_text, Hb, andb_false_r.
  rewrite (append_text_cases b c), Hb, !append_text_cases.
  destruct (whitespace_only a); [reflexivity|].
  rewrite <- !app_assoc. reflexivity.
Qed.

Lemma append_text_assoc_witness :
  append_text (append_text (py "tos") (py "seca")) (py "y fiebre")
  = append_text (py "tos") (append_text (py "seca") (py "y fiebre")).
Proof. apply (append_text_assoc (py "tos") (py "seca") (py "y fiebre")). reflexivity. Defined.

(** X3: dictating on top of a text that is not blank appends every
    transcript, each after one space, in the order dictated; nothing already
    there is changed, even by blank transcripts. *)
Theorem dictate_appends (existing : str) (chunks : list str) :
  whitespace_only existing = false →
  dictate existing chunks = existing ++ concat (map (λ c, [32] ++ c) chunks).
Proof.
  unfold dictate. revert existing.
  induction chunks as [|c cs IH]; intros existing H; simpl.
  - rewrite app_nil_r. reflexivity.
  - rewrite IH.
    + rewrite append_text_cases, H. rewrite <- !app_assoc. reflexivity.
    + rewrite whitespace_only_append_text, H. reflexivity.
Qed.

Lemma dictate_appends_witness :
  dictate (py "dolor") [py "de cabeza"; py "intenso"]
  = py "dolor" ++ concat (map (λ c, [32] ++ c) [py "de cabeza"; py "intenso"]).
Proof. apply (dictate_appends (py "dolor") [py "de cabeza"; py "intenso"]). reflexivity. Defined.

(** X4: dictating on top of a blank text (empty, or only white space typed
    by hand) throws that text away: the first transcript replaces it. *)
Theorem dictate_replaces_blank (existing c : str) (cs : list str) :
  whitespace_only existing = true →
  dictate existing (c :: cs) = dictate c cs.
Proof.
  intros H. unfold dictate. simpl. rewrite append_text_cases, H. reflexivity.
Qed.

Lemma dictate_replaces_blank_witness :
  dictate (py "   ") [py "fiebre"; py "alta"] = dictate (py "fiebre") [py "alta"].
Proof. apply (dictate_replaces_blank (py "   ") (py "fiebre") [py "alta"]). reflexivity. Defined.

End Merging.

(** ** The voice configuration *)

Section Config.
Import Voice.

(** X5: the four names are imported by one statement, so a [src.config]
    that lacks any one of them is ignored as a whole: all four parameters
    take their defaults, the ones it does define included. *)
Theorem load_config_all_or_nothing (c : ConfigModule) :
  cfg_VOICE_LANGUAGE c = None ∨ cfg_VOICE_ENERGY_THRESHOLD c = None
  ∨ cfg_VOICE_DYNAMIC_THRESHOLD c = None ∨ cfg_VOICE_AMBIENT_DURATION c = None →
  load_config (Some c) = default_config.
Proof.
  destruct c as [l e d a]. unfold load_config, from_config_import. simpl.
  intros [ -> | [ -> | [ -> | -> ]]];
    repeat match goal with x : option _ |- _ => destruct x end; reflexivity.
Qed.

Lemma load_config_all_or_nothing_witness :
  load_config (Some {| cfg_VOICE_LANGUAGE := Some (py "en-US");
                       cfg_VOICE_ENERGY_THRESHOLD := Some 300%Z;
                       cfg_VOICE_DYNAMIC_THRESHOLD := Some false;
                       cfg_VOICE_AMBIENT_DURATION := None |})
  = default_config.
Proof.
  apply (load_config_all_or_nothing
           {| cfg_VOICE_LANGUAGE := Some (py "en-US");
              cfg_VOICE_ENERGY_THRESHOLD := Some 300%Z;
              cfg_VOICE_DYNAMIC_THRESHOLD := Some false;
              cfg_VOICE_AMBIENT_DURATION := None |}).
  right. right. right. reflexivity.
Defined.

End Config.

(** ** The certainty bands *)

Section BandOrder.
Import Np App FloatOrder.
Local Open Scope float_scope.



End BandOrder.

(** ** More on [cleanup_temp_file] and [transcribe_audio] *)

Section VoiceMore.
Import Voice.

Lemma cleanup_temp_file_cases (w : World) (path : string) (s : Store) :
  cleanup_temp_file w path s =
    match fs s !! path, w_remove w with
    | None, _ => (inr tt, s, [])
    | Some _, Some _ => (inr tt, s, [EvRemove path])
    | Some _, None => (inr tt, set_fs (delete path) s, [EvRemove path])
    end.
Proof.
  unfold cleanup_temp_file, try_except, bind, os_path_exists, get_store, ret,
    os_remove, bind, emit, modify, outcome, raise, ret.
  cbn. destruct (fs s !! path) as [b|]; cbn; [|reflexivity].
  destruct (w_remove w); reflexivity.
Qed.

(** The effect of [cleanup_temp_file] on the store and the log. *)
Lemma cleanup_temp_file_effect (w : World) (path : string) (s : Store) :
  ∃ s' evs,
    cleanup_temp_file w path s = (inr tt, s', evs)
    ∧ texto_completo s' = texto_completo s
    ∧ (∀ p, p ≠ path → fs s' !! p = fs s !! p)
    ∧ (fs s !! path = None → s' = s ∧ evs = [])
    ∧ (is_Some (fs s !! path) → evs = [EvRemove path])
    ∧ (w_remove w = None → fs s' !! path = None)
    ∧ (w_remove w ≠ None → s' = s).
Proof.
  rewrite cleanup_temp_file_cases.
  destruct (fs s !! path) as [b|] eqn:E; [destruct (w_remove w) as [e|] eqn:R|].
  - exists s, [EvRemove path]. repeat split; try reflexivity; try congruence.
  - exists (set_fs (delete path) s), [EvRemove path].
    repeat split; try reflexivity; try congruence.
    + intros p Hp. simpl. apply lookup_delete_ne. congruence.
    + intros _. simpl. apply lookup_delete_eq.
  - exists s, []. repeat split; try reflexivity; try congruence.
    intros [x Hx]. discriminate Hx.
Qed.

(** X7: [cleanup_temp_file] never raises and touches nothing but the file it
    is given: every other file and the session text are as before; on a
    path that does not exist it does nothing at all, [os.remove] is not even
    attempted; when the removal succeeds the file is gone, and when it fails
    the store is unchanged. *)
Theorem cleanup_temp_file_safe (w : World) (path : string) (s : Store) :
  ∃ s' evs,
    cleanup_temp_file w path s = (inr tt, s', evs)
    ∧ texto_completo s' = texto_completo s
    ∧ (∀ p, p ≠ path → fs s' !! p = fs s !! p)
    ∧ (fs s !! path = None → s' = s ∧ evs = [])
    ∧ (is_Some (fs s !! path) → evs = [EvRemove path])
    ∧ (w_remove w = None → fs s' !! path = None)
    ∧ (w_remove w ≠ None → s' = s).
Proof.
  rewrite cleanup_temp_file_cases.
  destruct (fs s !! path) as [b|] eqn:E; [destruct (w_remove w) as [e|] eqn:R|].
  - exists s, [EvRemove path]. repeat split; try reflexivity; try congruence.
  - exists (set_fs (delete path) s), [EvRemove path].
    repeat split; try reflexivity; try congruence.
    + intros p Hp. simpl. apply lookup_delete_ne. congruence.
    + intros _. simpl. apply lookup_delete_eq.
  - exists s, []. repeat split; try reflexivity; try congruence.
    intros [x Hx]. discriminate Hx.
Qed.

Local Opaque cleanup_temp_file py temp_file.

Ltac step_world :=
  match goal with
  | |- context [outcome ?o] => destruct o eqn:?; simpl
  | |- context [of_sum ?r] => destruct r eqn:?; simpl
  | |- context [match exn_kind ?e with _ => _ end] => destruct (exn_kind e) eqn:?; simpl
  end.

Ltac run_cleanup w :=
  match goal with
  | |- context [cleanup_temp_file w temp_file ?s] =>
      let s' := fresh "s'" in
      let evs := fresh "evs" in
      let E := fresh "E" in
      let Ht := fresh "Ht" in
      let Hf := fresh "Hf" in
      let Hn := fresh "Hn" in
      let Hs := fresh "Hs" in
      destruct (cleanup_temp_file_effect w temp_file s)
        as (s' & evs & E & Ht & Hf & Hn & Hs & _ & _);
      rewrite E; simpl
  end.

(** The log and the store of one call, in every world. *)
Lemma transcribe_audio_log (cfg : VoiceConfig) (w : World) (audio : bytes)
    (language : option str) (s : Store) :
  ∃ s' removal,
    transcribe_audio cfg w audio language s
      = (inr (encode (outcome_of w (language_of cfg language))), s',
         take (steps_started w) (engine_steps cfg w audio (language_of cfg language))
         ++ removal)
    ∧ texto_completo s' = texto_completo s
    ∧ (∀ p, p ≠ temp_file → fs s' !! p = fs s !! p)
    ∧ (removal = [] ∨ removal = [EvRemove temp_file])
    ∧ (w_open w = None → removal = [EvRemove temp_file])
    ∧ (fs s !! temp_file = None → w_open w ≠ None → s' = s ∧ removal = []).
Proof.
  unfold transcribe_audio, outcome_of, before_recognition, steps_started, engine_steps.
  fold (language_of cfg language).
  unfold try_except, bind, open_write, Recognizer_new, AudioFile_enter,
    adjust_for_ambient_noise, record, recognize_google, emit, modify.
  simpl. repeat step_world.
  all: run_cleanup w; rewrite ?app_nil_r.
  all: eexists s', evs; split; [reflexivity|].
  all: split; [exact Ht|].
  all: split;
    [intros p Hp; rewrite (Hf p Hp); simpl;
     rewrite ?lookup_insert_ne by congruence; reflexivity|].
  all: split;
    [destruct (fs s !! temp_file) eqn:Ex;
     first [right; apply Hs; simpl; rewrite ?lookup_insert_eq, ?Ex; solve [eexists; reflexivity]
           |left; destruct Hn as [_ ->]; reflexivity]|].
  all: split; [intros; try discriminate; apply Hs; simpl;
               rewrite ?lookup_insert_eq; solve [eexists; reflexivity]|].
  all: intros Hex Hop; try congruence; apply Hn; simpl; exact Hex.
Qed.

(** X8: a transcription touches no file but [temp_audio.wav] and never the
    session text, whatever happens during the call; when the temporary file
    did not exist and could not be opened, the store is left exactly as it
    was. *)
Theorem transcribe_audio_frame (cfg : VoiceConfig) (w : World) (audio : bytes)
    (language : option str) (s : Store) :
  texto_completo (transcribe_audio cfg w audio language s).1.2 = texto_completo s
  ∧ (∀ p, p ≠ temp_file →
       fs (transcribe_audio cfg w audio language s).1.2 !! p = fs s !! p)
  ∧ (fs s !! temp_file = None → w_open w ≠ None →
       (transcribe_audio cfg w audio language s).1.2 = s).
Proof.
  destruct (transcribe_audio_log cfg w audio language s)
    as (s' & removal & E & Ht & Hf & _ & _ & Hn).
  rewrite E. simpl. split; [exact Ht|]. split; [exact Hf|].
  intros H1 H2. apply Hn; assumption.
Qed.

(** X9: the steps of a call run in the order of the source, each at most
    once, up to the first one that fails; the only thing that can follow is
    one attempt to remove the temporary file, which is made whenever the
    file could be opened. *)
Theorem transcribe_audio_order (cfg : VoiceConfig) (w : World) (audio : bytes)
    (language : option str) (s : Store) :
  ∃ removal,
    (transcribe_audio cfg w audio language s).2
      = take (steps_started w) (engine_steps cfg w audio (language_of cfg language))
        ++ removal
    ∧ (removal = [] ∨ removal = [EvRemove temp_file])
    ∧ (w_open w = None → removal = [EvRemove temp_file]).
Proof.
  destruct (transcribe_audio_log cfg w audio language s)
    as (s' & removal & E & _ & _ & Hr & Ho & _).
  exists removal. rewrite E. simpl. split; [reflexivity|]. split; assumption.
Qed.

(** X10: the recognition service is called once when the six local steps
    before it succeed and not at all otherwise; a call never retries. *)
Theorem recognition_called_at_most_once (cfg : VoiceConfig) (w : World)
    (audio : bytes) (language : option str) (s : Store) :
  length (filter (λ e, is_recognize_call e = true)
            (transcribe_audio cfg w audio language s).2)
  = match before_recognition w with inr _ => 1%nat | inl _ => 0%nat end.
Proof.
  destruct (transcribe_audio_log cfg w audio language s)
    as (s' & removal & E & _ & _ & Hr & _ & _).
  rewrite E. simpl. rewrite filter_app, length_app.
  assert (R : length (filter (λ e, is_recognize_call e = true) removal) = 0%nat).
  { destruct Hr as [-> | ->]; reflexivity. }
  rewrite R, Nat.add_0_r.
  unfold steps_started, before_recognition, engine_steps.
  destruct (w_open w); [reflexivity|]. destruct (w_write w); [reflexivity|].
  destruct (w_recognizer w); [reflexivity|]. destruct (w_audiofile w); [reflexivity|].
  destruct (w_adjust w); [reflexivity|]. destruct (w_record w); reflexivity.
Qed.

End VoiceMore.

(** ** Loading the artifacts *)

Section Loading.
Import App.
Local Opaque py.

Lemma load_models_body_cases (env : Env) (s : Store) :
  load_models_body env s =
    match fs s !! MODEL_SVM_PATH env, fs s !! LABEL_ENCODER_PATH env with
    | Some b1, Some b2 =>
        match pickle_load_model env b1 with
        | inl e => (inr (None, None), s, [StError (py "Error técnico: " ++ exn_str e)])
        | inr m =>
            match pickle_load_le env b2 with
            | inl e => (inr (None, None), s, [StError (py "Error técnico: " ++ exn_str e)])
            | inr l => (inr (Some m, Some l), s, [])
            end
        end
    | _, _ => (inr (None, None), s, [])
    end.
Proof.
  unfold load_models_body, try_except, bind, get_store, open_rb, ret, raise.
  cbv beta iota.
  destruct (fs s !! MODEL_SVM_PATH env) as [b1|] eqn:E1; cbn [bool_decide negb orb];
    [|reflexivity].
  destruct (fs s !! LABEL_ENCODER_PATH env) as [b2|] eqn:E2; cbn; [|reflexivity].
  rewrite E1. cbn.
  destruct (pickle_load_model env b1) as [e|m]; cbn; [reflexivity|].
  rewrite E2. cbn.
  destruct (pickle_load_le env b2) as [e|l]; reflexivity.
Qed.

Lemma load_models_body_run (env : Env) (s : Store) :
  ∃ r evs, load_models_body env s = (inr r, s, evs).
Proof.
  rewrite load_models_body_cases.
  destruct (fs s !! MODEL_SVM_PATH env) as [b1|]; [|eauto].
  destruct (fs s !! LABEL_ENCODER_PATH env) as [b2|]; [|eauto].
  destruct (pickle_load_model env b1) as [e|m]; [eauto|].
  destruct (pickle_load_le env b2) as [e|l]; eauto.
Qed.

Lemma load_models_body_pair (env : Env) (s : Store)
    (r : option Model * option LabelEncoder) (evs : list event) :
  load_models_body env s = (inr r, s, evs) →
  r = (None, None)
  ∨ ∃ b1 b2 m l,
      r = (Some m, Some l) ∧ evs = []
      ∧ fs s !! MODEL_SVM_PATH env = Some b1
      ∧ fs s !! LABEL_ENCODER_PATH env = Some b2
      ∧ pickle_load_model env b1 = inr m
      ∧ pickle_load_le env b2 = inr l.
Proof.
  rewrite load_models_body_cases.
  destruct (fs s !! MODEL_SVM_PATH env) as [b1|]; [|intros [= <- <-]; auto].
  destruct (fs s !! LABEL_ENCODER_PATH env) as [b2|]; [|intros [= <- <-]; auto].
  destruct (pickle_load_model env b1) as [e|m] eqn:Em; [intros [= <- <-]; auto|].
  destruct (pickle_load_le env b2) as [e|l] eqn:El; [intros [= <- <-]; auto|].
  intros [= <- <-]. right. exists b1, b2, m, l. auto 10.
Qed.

(** X11: [load_models] never raises and leaves the files and the session
    text alone. The first call of the process runs the body and caches what
    it returned and showed; a later call gives back the cached answer,
    whatever the files have become. The answer is a classifier and a decoder
    together or neither of them: the page cannot hold a model without its
    decoder. Both are returned only when, at the time the body ran, both
    files existed and both unpickled. *)
Theorem load_models_both_or_neither (env : Env) (s : Store) :
  cache_from_loader env s →
  ∃ r evs s',
    load_models env s = (inr r, s', evs)
    ∧ fs s' = fs s ∧ texto_completo s' = texto_completo s
    ∧ models_cache s' = Some (r, evs)
    ∧ cache_from_loader env s'
    ∧ (∀ c, models_cache s = Some c → c = (r, evs) ∧ s' = s)
    ∧ (r = (None, None)
       ∨ ∃ s0 b1 b2 m l,
           r = (Some m, Some l) ∧ evs = []
           ∧ (models_cache s = None → s0 = s)
           ∧ fs s0 !! MODEL_SVM_PATH env = Some b1
           ∧ fs s0 !! LABEL_ENCODER_PATH env = Some b2
           ∧ pickle_load_model env b1 = inr m
           ∧ pickle_load_le env b2 = inr l).
Proof.
  intros Hwf. unfold load_models.
  destruct (models_cache s) as [[r shown]|] eqn:Hc.
  - exists r, shown, s. split; [reflexivity|]. split; [reflexivity|].
    split; [reflexivity|]. split; [exact Hc|]. split; [exact Hwf|].
    split; [intros c [= <-]; auto|].
    destruct (Hwf r shown Hc) as [s0 H0].
    destruct (load_models_body_pair env s0 r shown H0)
      as [->|(b1 & b2 & m & l & -> & -> & H1 & H2 & H3 & H4)]; [left; reflexivity|].
    right. exists s0, b1, b2, m, l. repeat (split; [first [reflexivity|assumption]|]).
    split; [intros; discriminate|]. auto.
  - destruct (load_models_body_run env s) as (r & evs & Hb). rewrite Hb.
    exists r, evs, (set_models_cache (Some (r, evs)) s).
    split; [reflexivity|]. split; [reflexivity|]. split; [reflexivity|].
    split; [reflexivity|].
    split; [intros r' shown' [= <- <-]; exists s; exact Hb|].
    split; [intros c; discriminate|].
    destruct (load_models_body_pair env s r evs Hb)
      as [->|(b1 & b2 & m & l & -> & -> & H1 & H2 & H3 & H4)]; [left; reflexivity|].
    right. exists s, b1, b2, m, l. auto 10.
Qed.

Lemma load_models_both_or_neither_witness :
  ∃ r evs s',
    load_models Fixture.env Fixture.store_ok = (inr r, s', evs)
    ∧ models_cache s' = Some (r, evs).
Proof.
  destruct (load_models_both_or_neither Fixture.env Fixture.store_ok)
    as (r & evs & s' & H & _ & _ & Hc & _).
  - intros r shown H. discriminate.
  - exists r, evs, s'. split; [exact H|exact Hc].
Defined.

(** X12: on the run that executes the loader, an artifact that exists but
    cannot be unpickled has the effect of a missing one, with one more
    message: the loader shows the technical error and yields no model, and
    the run goes on to the degraded page and stops. With the stylesheet and
    the logo readable, the whole script shows the stylesheet, the error,
    the logo, the status and the warning. *)
Theorem corrupt_artifact_degrades (env : Env) (w : Voice.World) (req : Request)
    (s : Store) (b1 b2 : bytes) (e : exn) :
  models_cache s = None →
  fs s !! MODEL_SVM_PATH env = Some b1 →
  fs s !! LABEL_ENCODER_PATH env = Some b2 →
  pickle_load_model env b1 = inl e
  ∨ ((∃ m, pickle_load_model env b1 = inr m) ∧ pickle_load_le env b2 = inl e) →
  load_models env s
    = (inr (None, None),
       set_models_cache
         (Some ((None, None), [StError (py "Error técnico: " ++ exn_str e)])) s,
       [StError (py "Error técnico: " ++ exn_str e)])
  ∧ run_page env w req s
    = (inr tt,
       set_models_cache
         (Some ((None, None), [StError (py "Error técnico: " ++ exn_str e)])) s,
       StError (py "Error técnico: " ++ exn_str e) :: degraded_log)
  ∧ ∀ css,
      (Templates.load_css (templates env) s).1.1 = inr css →
      is_Some (fs s !! LOGO_PATH env) →
      app env w req s
      = (inr tt,
         set_models_cache
           (Some ((None, None), [StError (py "Error técnico: " ++ exn_str e)])) s,
         [StMarkdown css; StError (py "Error técnico: " ++ exn_str e);
          StImage (LOGO_PATH env)] ++ degraded_log).
Proof.
  intros Hc H1 H2 Hp.
  assert (Hb : load_models_body env s
               = (inr (None, None), s, [StError (py "Error técnico: " ++ exn_str e)])).
  { rewrite load_models_body_cases, H1, H2.
    destruct Hp as [Hm|[Hm Hl]].
    - rewrite Hm. reflexivity.
    - destruct Hm as [m ->]. rewrite Hl. reflexivity. }
  assert (Hload : load_models env s
    = (inr (None, None),
       set_models_cache
         (Some ((None, None), [StError (py "Error técnico: " ++ exn_str e)])) s,
       [StError (py "Error técnico: " ++ exn_str e)])).
  { unfold load_models. rewrite Hc, Hb. reflexivity. }
  split; [exact Hload|]. split.
  - unfold run_page. rewrite (bind_run _ _ _ _ _ _ Hload). cbn [fst snd].
    rewrite (page_body_degraded env w req None _). reflexivity.
  - intros css Hcss [b Hlogo].
    pose proof (load_css_run (templates env) s) as E. rewrite Hcss in E.
    unfold app. rewrite (bind_run _ _ _ _ _ _ E). cbn [fst snd app].
    rewrite bind_emit. cbn [fst snd].
    rewrite (bind_run _ _ _ _ _ _ Hload). cbn [fst snd app].
    pose proof (st_image_run (LOGO_PATH env)
                  (set_models_cache
                     (Some ((None, None),
                            [StError (py "Error técnico: " ++ exn_str e)])) s)) as Him.
    change (fs (set_models_cache
                  (Some ((None, None),
                         [StError (py "Error técnico: " ++ exn_str e)])) s))
      with (fs s) in Him.
    rewrite Hlogo in Him.
    rewrite (bind_run _ _ _ _ _ _ Him). cbn [fst snd].
    rewrite (page_body_degraded env w req None _). reflexivity.
Qed.

Lemma corrupt_artifact_degrades_witness :
  run_page
    {| limpiar_texto_medico := limpiar_texto_medico Fixture.env;
       calcular_prioridad := calcular_prioridad Fixture.env;
       calcular_derivacion := calcular_derivacion Fixture.env;
       MODEL_SVM_PATH := MODEL_SVM_PATH Fixture.env;
       LABEL_ENCODER_PATH := LABEL_ENCODER_PATH Fixture.env;
       LOGO_PATH := LOGO_PATH Fixture.env;
       pickle_load_model := pickle_load_model Fixture.env;
       pickle_load_le := λ _, inl (Exn OtherException (py "invalid load key"));
       voice_config := voice_config Fixture.env;
       templates := templates Fixture.env;
       np_argsort := np_argsort Fixture.env;
       str_format := str_format Fixture.env |}
    Fixture.world (Fixture.request (py "Dolor abdominal intenso")) Fixture.store_ok
  = (inr tt,
     set_models_cache
       (Some ((None, None),
              [StError (py "Error técnico: " ++ py "invalid load key")]))
       Fixture.store_ok,
     StError (py "Error técnico: " ++ py "invalid load key") :: degraded_log).
Proof.
  refine (proj1 (proj2 (corrupt_artifact_degrades _ Fixture.world _ Fixture.store_ok
                          [] [] (Exn OtherException (py "invalid load key"))
                          _ _ _ _))).
  - reflexivity.
  - vm_compute. reflexivity.
  - vm_compute. reflexivity.
  - right. split; [eexists; reflexivity|reflexivity].
Defined.

End Loading.

(** ** The dictation block *)

Section Dictation.
Import Voice App.

Lemma engine_steps_voice (cfg : VoiceConfig) (w : World) (audio : bytes) (l : str)
    (k : nat) :
  Forall (λ e, is_voice_event e = true) (take k (engine_steps cfg w audio l)).
Proof. apply Forall_take. repeat constructor. Qed.

Lemma removal_voice (removal : list event) :
  removal = [] ∨ removal = [EvRemove temp_file] →
  Forall (λ e, is_voice_event e = true) removal.
Proof. intros [-> | ->]; repeat constructor. Qed.

(** The dictation block on a non-empty recording. *)
Lemma process_audio_outcome_run (env : Env) (w : World) (b : Byte.byte)
    (a : bytes) (s : Store) :
  ∃ s' evs widget,
    process_audio env w (Some (b :: a)) s = (inr tt, s', evs ++ [widget])
    ∧ Forall (λ e, is_voice_event e = true) evs
    ∧ (∀ p, p ≠ temp_file → fs s' !! p = fs s !! p)
    ∧ match outcome_of w (VOICE_LANGUAGE (voice_config env)) with
      | Success text =>
          texto_completo s' = append_text (texto_completo s) text
          ∧ widget = StSuccess (py "Transcrito correctamente")
      | Unrecognized =>
          texto_completo s' = texto_completo s ∧ widget = StWarning msg_unknown
      | ServiceError d =>
          texto_completo s' = texto_completo s
          ∧ (widget = StWarning (py "Error del servicio de reconocimiento: " ++ d)
             ∨ widget = StError (py "Error del servicio de reconocimiento: " ++ d))
      | ProcessingError d =>
          texto_completo s' = texto_completo s
          ∧ (widget = StWarning (py "Error procesando audio: " ++ d)
             ∨ widget = StError (py "Error procesando audio: " ++ d))
      end.
Proof.
  destruct (transcribe_audio_log (voice_config env) w (b :: a) None s)
    as (s1 & removal & E & Ht & Hf & Hr & _ & _).
  simpl language_of in E.
  assert (V : Forall (λ e, is_voice_event e = true)
                (take (steps_started w)
                   (engine_steps (voice_config env) w (b :: a)
                      (VOICE_LANGUAGE (voice_config env))) ++ removal)).
  { apply Forall_app. split; [apply engine_steps_voice|apply removal_voice, Hr]. }
  assert (U : contains (py "no se pudo entender") (lower msg_unknown) = true)
    by (vm_compute; reflexivity).
  unfold process_audio, bind. rewrite E.
  destruct (outcome_of w (VOICE_LANGUAGE (voice_config env))) as [t| |d|d];
    unfold encode.
  - eexists _, _, _. split; [reflexivity|]. split; [exact V|].
    split; [exact Hf|]. split; [|reflexivity]. simpl. rewrite Ht. reflexivity.
  - rewrite U. eexists _, _, _. split; [reflexivity|]. split; [exact V|].
    split; [exact Hf|]. split; [exact Ht|reflexivity].
  - clear U. destruct (contains _ _); eexists _, _, _; (split; [reflexivity|]);
      (split; [exact V|]); (split; [exact Hf|]); (split; [exact Ht|]); auto.
  - clear U. destruct (contains _ _); eexists _, _, _; (split; [reflexivity|]);
      (split; [exact V|]); (split; [exact Hf|]); (split; [exact Ht|]); auto.
Qed.

(** X13: what the page does with a recording, by outcome of the
    transcription. A transcript is merged into the session text and
    acknowledged; an audio that was not understood gives a warning; any
    other failure gives one message, a warning or an error, carrying the
    text of the failure. On every failure the session text is left as it
    was, and in no case does the block raise or call a component. *)
Theorem process_audio_by_outcome (env : Env) (w : World) (b : Byte.byte)
    (a : bytes) (s : Store) :
  ∃ s' evs widget,
    process_audio env w (Some (b :: a)) s = (inr tt, s', evs ++ [widget])
    ∧ Forall (λ e, is_voice_event e = true) evs
    ∧ (∀ p, p ≠ temp_file → fs s' !! p = fs s !! p)
    ∧ match outcome_of w (VOICE_LANGUAGE (voice_config env)) with
      | Success text =>
          texto_completo s' = append_text (texto_completo s) text
          ∧ widget = StSuccess (py "Transcrito correctamente")
      | Unrecognized =>
          texto_completo s' = texto_completo s ∧ widget = StWarning msg_unknown
      | ServiceError d =>
          texto_completo s' = texto_completo s
          ∧ (widget = StWarning (py "Error del servicio de reconocimiento: " ++ d)
             ∨ widget = StError (py "Error del servicio de reconocimiento: " ++ d))
      | ProcessingError d =>
          texto_completo s' = texto_completo s
          ∧ (widget = StWarning (py "Error procesando audio: " ++ d)
             ∨ widget = StError (py "Error procesando audio: " ++ d))
      end.
Proof.
  destruct (transcribe_audio_log (voice_config env) w (b :: a) None s)
    as (s1 & removal & E & Ht & Hf & Hr & _ & _).
  simpl language_of in E.
  assert (V : Forall (λ e, is_voice_event e = true)
                (take (steps_started w)
                   (engine_steps (voice_config env) w (b :: a)
                      (VOICE_LANGUAGE (voice_config env))) ++ removal)).
  { apply Forall_app. split; [apply engine_steps_voice|apply removal_voice, Hr]. }
  assert (U : contains (py "no se pudo entender") (lower msg_unknown) = true)
    by (vm_compute; reflexivity).
  unfold process_audio, bind. rewrite E.
  destruct (outcome_of w (VOICE_LANGUAGE (voice_config env))) as [t| |d|d];
    unfold encode.
  - eexists _, _, _. split; [reflexivity|]. split; [exact V|].
    split; [exact Hf|]. split; [|reflexivity]. simpl. rewrite Ht. reflexivity.
  - rewrite U. eexists _, _, _. split; [reflexivity|]. split; [exact V|].
    split; [exact Hf|]. split; [exact Ht|reflexivity].
  - clear U. destruct (contains _ _); eexists _, _, _; (split; [reflexivity|]);
      (split; [exact V|]); (split; [exact Hf|]); (split; [exact Ht|]); auto.
  - clear U. destruct (contains _ _); eexists _, _, _; (split; [reflexivity|]);
      (split; [exact V|]); (split; [exact Hf|]); (split; [exact Ht|]); auto.
Qed.

(** The block as a whole: it returns, calls no component, and leaves in the
    session the text [dictated] describes. *)
Lemma process_audio_run (env : Env) (w : World) (audio : option bytes) (s : Store) :
  ∃ s' evs,
    process_audio env w audio s = (inr tt, s', evs)
    ∧ texto_completo s' = dictated env w audio (texto_completo s)
    ∧ (∀ p, p ≠ temp_file → fs s' !! p = fs s !! p)
    ∧ Forall (λ e, Fixture.is_component_call e = false) evs.
Proof.
  destruct audio as [[|b a]|].
  - exists s, []. repeat split; constructor.
  - destruct (process_audio_outcome_run env w b a s)
      as (s' & evs & widget & E & V & Hf & Ho).
    exists s', (evs ++ [widget]). split; [exact E|].
    assert (C : Forall (λ e, Fixture.is_component_call e = false) evs).
    { eapply Forall_impl; [exact V|]. intros e He. destruct e; try discriminate He; reflexivity. }
    unfold dictated.
    destruct (outcome_of w (VOICE_LANGUAGE (voice_config env))) as [t| |d|d];
      destruct Ho as [Ht Hw]; (split; [exact Ht|]); (split; [exact Hf|]);
      apply Forall_app; (split; [exact C|]); repeat constructor.
    + rewrite Hw. reflexivity.
    + rewrite Hw. reflexivity.
    + destruct Hw as [-> | ->]; reflexivity.
    + destruct Hw as [-> | ->]; reflexivity.
  - exists s, []. repeat split; constructor.
Qed.

End Dictation.

(** ** The analysis block *)

Section AnalysisMore.
Import Np App FloatOrder.
Local Opaque py.
Local Open Scope nat_scope.

Lemma keeps_ret {A} (a : A) : keeps_store (ret a).
Proof. intros s. reflexivity. Qed.

Lemma keeps_raise {A} (e : exn) : keeps_store (@raise A e).
Proof. intros s. reflexivity. Qed.

Lemma keeps_emit (e : event) : keeps_store (emit e).
Proof. intros s. reflexivity. Qed.

Lemma keeps_bind {A B} (m : Py A) (k : A → Py B) :
  keeps_store m → (∀ a, keeps_store (k a)) → keeps_store (bind m k).
Proof.
  intros Hm Hk s. unfold bind. specialize (Hm s).
  destruct (m s) as [[[e|a] s1] l1]; simpl in *; [exact Hm|].
  subst s1. specialize (Hk a s).
  destruct (k a s) as [[r s2] l2]. exact Hk.
Qed.

Lemma keeps_of_sum {A} (r : exn + A) : keeps_store (of_sum r).
Proof. destruct r; [apply keeps_raise|apply keeps_ret]. Qed.

Lemma keeps_index {A} (l : list A) (i : nat) : keeps_store (index l i).
Proof. unfold index. destruct (l !! i); [apply keeps_ret|apply keeps_raise]. Qed.

Lemma keeps_inverse_transform (le : option LabelEncoder) (idx : list nat) :
  keeps_store (inverse_transform le idx).
Proof.
  unfold inverse_transform. apply keeps_bind; [apply keeps_emit|intros _].
  destruct le as [l|]; [|apply keeps_raise].
  destruct (take_idx (classes_ l) idx); [apply keeps_ret|apply keeps_raise].
Qed.

Lemma keeps_diagnosis_card (c : float) (e : str) : keeps_store (diagnosis_card c e).
Proof.
  unfold diagnosis_card.
  destruct (certeza c); (apply keeps_bind; [apply keeps_emit|intros _; apply keeps_emit]).
Qed.

Lemma keeps_getitem {V} (d : gmap string V) (key : string) :
  keeps_store (getitem d key).
Proof. unfold getitem. destruct (d !! key); [apply keeps_ret|apply keeps_raise]. Qed.

Lemma keeps_load_template (t : Templates.Files) (filename : string) :
  keeps_store (Templates.load_template t filename).
Proof. intros s. rewrite load_template_run. reflexivity. Qed.

(** The analysis block hands back the store it was given. *)
Lemma keeps_analysis (env : Env) (model : Model) (le : option LabelEncoder)
    (analizar : bool) (texto_input : str) :
  keeps_store (analysis env model le analizar texto_input).
Proof.
  unfold analysis.
  destruct (analizar && truthy texto_input).
  - destruct (len texto_input <? 10)%Z; [apply keeps_emit|].
    repeat first
      [ apply keeps_emit | apply keeps_index | apply keeps_inverse_transform
      | apply keeps_diagnosis_card | apply keeps_of_sum | apply keeps_ret
      | apply keeps_getitem | apply keeps_load_template
      | apply keeps_raise
      | apply keeps_bind; [|intros ?]
      | match goal with |- keeps_store (match ?x with _ => _ end) => destruct x end ].
  - destruct (analizar && negb (truthy texto_input)); [apply keeps_emit|apply keeps_ret].
Qed.

(** X14: the analysis block never changes the store, neither the files nor
    the session text, whether it shows a result, rejects the text, or fails
    half-way with an exception. *)
Theorem analysis_keeps_store (env : Env) (model : Model) (le : option LabelEncoder)
    (analizar : bool) (texto_input : str) :
  keeps_store (analysis env model le analizar texto_input).
Proof.
  unfold analysis.
  destruct (analizar && truthy texto_input).
  - destruct (len texto_input <? 10)%Z; [apply keeps_emit|].
    repeat first
      [ apply keeps_emit | apply keeps_index | apply keeps_inverse_transform
      | apply keeps_diagnosis_card | apply keeps_of_sum | apply keeps_ret
      | apply keeps_getitem | apply keeps_load_template
      | apply keeps_raise
      | apply keeps_bind; [|intros ?]
      | match goal with |- keeps_store (match ?x with _ => _ end) => destruct x end ].
  - destruct (analizar && negb (truthy texto_input)); [apply keeps_emit|apply keeps_ret].
Qed.

Lemma diagnosis_card_run (c : float) (e : str) (s : Store) :
  diagnosis_card c e s = (inr tt, s, (diagnosis_card c e s).2).
Proof. unfold diagnosis_card. destruct (certeza c); reflexivity. Qed.

Lemma argmax_from_lt (l : list float) (mp : float) (k i : nat) :
  k < i → argmax_from mp k i l < i + length l.
Proof.
  revert mp k i. induction l as [|x l IH]; intros mp k i H; simpl; [lia|].
  destruct (is_nan mp); [lia|].
  destruct (negb (x <=? mp)%float).
  - specialize (IH x i (S i)). lia.
  - specialize (IH mp k (S i)). lia.
Qed.

(** [np.argmax] of a non-empty array is an index of the array, NaN or not. *)
Lemma argmax_in_range (a : list float) :
  a ≠ [] → ∃ i, argmax a = Some i ∧ i < length a.
Proof.
  destruct a as [|x l]; [congruence|]. intros _. eexists. split; [reflexivity|].
  simpl. pose proof (argmax_from_lt l x 0 1). lia.
Qed.

Lemma take_idx_in_range {A} (a : list A) (idx : list nat) :
  Forall (λ i, i < length a) idx →
  ∃ r, take_idx a idx = Some r ∧ length r = length idx.
Proof.
  intros H. unfold take_idx.
  assert (S : is_Some (mapM (λ i, a !! i) idx)).
  { apply mapM_is_Some. eapply Forall_impl; [exact H|].
    intros i Hi. apply lookup_lt_is_Some_2, Hi. }
  destruct S as [r Hr]. exists r. split; [exact Hr|].
  symmetry. eapply length_mapM. exact Hr.
Qed.

Lemma top3_of_in_range (a : list float) (idx : list nat) :
  is_argsort a idx → Forall (λ i, i < length a) (top3_of idx).
Proof.
  intros [Hperm _]. apply Forall_forall. intros i Hi.
  unfold top3_of, last_k in Hi. rewrite elem_of_reverse in Hi.
  assert (Hin : i ∈ idx).
  { rewrite <- (take_drop (length idx - 3) idx). apply elem_of_app. right. exact Hi. }
  rewrite Hperm in Hin. apply elem_of_seq in Hin. lia.
Qed.

Ltac step_emit := rewrite bind_emit; cbn [fst snd].
Ltac step_run H := rewrite (bind_run _ _ _ _ _ _ H); cbn [fst snd app].
Lemma index_run {A} (l : list A) (i : nat) (x : A) (s : Store) :
  l !! i = Some x → index l i s = (inr x, s, []).
Proof. intros H. unfold index. rewrite H. reflexivity. Qed.

Lemma getitem_run {V} (d : gmap string V) (key : string) (v : V) (s : Store) :
  d !! key = Some v → getitem d key s = (inr v, s, []).
Proof. intros H. unfold getitem. rewrite H. reflexivity. Qed.

Lemma of_sum_run {A} (r : exn + A) (a : A) (s : Store) :
  r = inr a → of_sum r s = (inr a, s, []).
Proof. intros ->. reflexivity. Qed.

Ltac step_getitem s H := step_run (getitem_run _ _ _ s H).

(** X15: on a text of at least 10 characters the block runs to the end
    without raising when the classifier returns a non-empty distribution,
    the decoder has one label per class, [np.argsort] returns an ascending
    order, the two templates can be read and formatted, and the scorer and
    the router return dictionaries with the keys the page reads. The
    cleaner sees the raw text and the classifier the cleaned one; the
    urgency scorer sees the raw text again; the router gets the scorer's
    level and the label at the argmax; the chart gets the labels and
    probabilities of the last three indices of the sort, reversed. Each
    component is called once, in that order. *)
Theorem analysis_runs (env : Env) (model : Model) (le : LabelEncoder)
    (texto_input : str) (s : Store) (pred_probs : list float)
    (max_idx : nat) (especialidad_pred : str)
    (card icon_card html icon_html : str)
    (nivel nombre color tiempo tipo accion mensaje icono : pyval) :
  (10 <= len texto_input)%Z →
  predict_proba model (limpiar_texto_medico env texto_input) = pred_probs →
  argmax pred_probs = Some max_idx →
  classes_ le !! max_idx = Some especialidad_pred →
  length (classes_ le) = length pred_probs →
  is_argsort pred_probs (np_argsort env pred_probs) →
  (Templates.load_template (templates env) "triaje_card.html" s).1.1 = inr card →
  (Templates.load_template (templates env) "icon_centered.html" s).1.1 = inr icon_card →
  calcular_prioridad env texto_input !! "nivel" = Some nivel →
  calcular_prioridad env texto_input !! "nombre" = Some nombre →
  calcular_prioridad env texto_input !! "color" = Some color →
  calcular_prioridad env texto_input !! "tiempo" = Some tiempo →
  str_format env card [("nivel", nivel); ("nombre", nombre);
                       ("color", color); ("tiempo", tiempo)] = inr html →
  calcular_derivacion env nivel especialidad_pred !! "tipo" = Some tipo →
  calcular_derivacion env nivel especialidad_pred !! "accion" = Some accion →
  calcular_derivacion env nivel especialidad_pred !! "mensaje" = Some mensaje →
  calcular_derivacion env nivel especialidad_pred !! "icono" = Some icono →
  str_format env icon_card [("icon", icono); ("size", VStr (py "3rem"))]
    = inr icon_html →
  ∃ confidence especialidades probabilidades,
    pred_probs !! max_idx = Some confidence
    ∧ take_idx (classes_ le) (top3_of (np_argsort env pred_probs))
        = Some especialidades
    ∧ take_idx pred_probs (top3_of (np_argsort env pred_probs))
        = Some probabilidades
    ∧ analysis env model (Some le) true texto_input s
      = (inr tt, s,
         [CallLimpiarTextoMedico texto_input;
          CallPredictProba (limpiar_texto_medico env texto_input);
          CallInverseTransform [max_idx]]
         ++ (diagnosis_card confidence especialidad_pred s).2
         ++ [CallCalcularPrioridad texto_input;
             StMarkdown html;
             CallCalcularDerivacion nivel especialidad_pred;
             StMarkdown icon_html;
             StMarkdown (py "### " ++ str_of tipo);
             StMarkdown (py "**ACCIÓN:** " ++ str_of accion);
             StInfo mensaje;
             CallInverseTransform (top3_of (np_argsort env pred_probs));
             StBarChart especialidades probabilidades]).
Proof.
  intros Hlen Hp Hmax Hesp Hcl Hsort Hcard Hicon Hnivel Hnombre Hcolor Htiempo
    Hfmt Htipo Haccion Hmensaje Hicono Hifmt.
  assert (Ht : truthy texto_input = true).
  { clear -Hlen. destruct texto_input; [unfold len in Hlen; simpl in Hlen; lia|reflexivity]. }
  assert (Hz : (len texto_input <? 10)%Z = false) by (apply Z.ltb_ge; exact Hlen).
  unfold analysis. rewrite Ht, Hz. cbn [andb]. cbv zeta. rewrite Hp. clear Hp.
  assert (Hlt : max_idx < length pred_probs).
  { rewrite <- Hcl. eapply lookup_lt_Some. exact Hesp. }
  destruct (lookup_lt_is_Some_2 pred_probs max_idx Hlt) as [confidence Hconf].
  pose proof (top3_of_in_range pred_probs _ Hsort) as Hr.
  destruct (take_idx_in_range pred_probs _ Hr) as (probs & Hprobs & _).
  rewrite <- Hcl in Hr.
  destruct (take_idx_in_range (classes_ le) _ Hr) as (labels & Hlabels & _).
  exists confidence, labels, probs.
  repeat (split; [assumption|]).
  assert (Hinv : inverse_transform (Some le) [max_idx] s
                 = (inr [especialidad_pred], s, [CallInverseTransform [max_idx]])).
  { unfold inverse_transform, bind, emit, take_idx. simpl. rewrite Hesp. reflexivity. }
  assert (Hinv3 : inverse_transform (Some le) (top3_of (np_argsort env pred_probs)) s
                  = (inr labels, s,
                     [CallInverseTransform (top3_of (np_argsort env pred_probs))])).
  { unfold inverse_transform, bind, emit. cbv beta iota. rewrite Hlabels. reflexivity. }
  pose proof (diagnosis_card_run confidence especialidad_pred s) as Hdiag.
  pose proof (load_template_run (templates env) "triaje_card.html" s) as Hc1.
  rewrite Hcard in Hc1.
  pose proof (load_template_run (templates env) "icon_centered.html" s) as Hc2.
  rewrite Hicon in Hc2.
  step_emit. step_emit. rewrite Hmax, bind_ret.
  step_run (index_run _ _ _ s Hconf).
  step_run Hinv.
  step_run (index_run [especialidad_pred] 0 especialidad_pred s eq_refl).
  step_run Hdiag. step_emit. step_run Hc1.
  step_getitem s Hnivel. step_getitem s Hnombre. step_getitem s Hcolor.
  step_getitem s Htiempo. step_run (of_sum_run _ _ s Hfmt).
  step_emit. step_getitem s Hnivel. step_emit. step_run Hc2.
  step_getitem s Hicono. step_run (of_sum_run _ _ s Hifmt).
  step_emit. step_getitem s Htipo. step_emit. step_getitem s Haccion. step_emit.
  step_getitem s Hmensaje. step_emit. step_run Hinv3.
  rewrite Hprobs. step_run (of_sum_run _ _ s (eq_refl (inr probs))).
  unfold emit. cbn [fst snd app]. reflexivity.
Qed.

Lemma analysis_runs_witness :
  ∃ evs,
    analysis Fixture.env Fixture.model (Some Fixture.le) true
      (py "Dolor abdominal intenso desde hace 2 horas") Fixture.store_ok
    = (inr tt, Fixture.store_ok, evs).
Proof.
  edestruct (analysis_runs Fixture.env Fixture.model Fixture.le
               (py "Dolor abdominal intenso desde hace 2 horas") Fixture.store_ok
               [0.7; 0.2; 0.1]%float 0 (py "Cardiología"))
    as (c & ls & ps & _ & _ & _ & E).
  - vm_compute. discriminate.
  - reflexivity.
  - reflexivity.
  - vm_compute. reflexivity.
  - reflexivity.
  - apply argsort_is_argsort, all_numbers_Forall. reflexivity.
  - vm_compute. reflexivity.
  - vm_compute. reflexivity.
  - vm_compute. reflexivity.
  - vm_compute. reflexivity.
  - vm_compute. reflexivity.
  - vm_compute. reflexivity.
  - vm_compute. reflexivity.
  - vm_compute. reflexivity.
  - vm_compute. reflexivity.
  - vm_compute. reflexivity.
  - vm_compute. reflexivity.
  - vm_compute. reflexivity.
  - eexists. exact E.
Defined.

End AnalysisMore.

(** ** The prediction and the first bar of the chart *)

Section FirstBar.
Import Np App FloatOrder.
Local Open Scope nat_scope.

Lemma argmax_first_max (a : list float) :
  a ≠ [] → Forall number a →
  ∃ max_idx conf,
    argmax a = Some max_idx ∧ a !! max_idx = Some conf
    ∧ (∀ j x, a !! j = Some x → (x <=? conf)%float = true)
    ∧ (∀ j x, j < max_idx → a !! j = Some x → (x <? conf)%float = true).
Proof.
  intros Hne Hnum. destruct a as [|x l]; [congruence|].
  destruct (argmax_from_first_max l [x] x 0) as (v & Hv & Hmax & Hfirst).
  - exact Hnum.
  - apply Forall_cons in Hnum. tauto.
  - reflexivity.
  - intros [|j] y Hj; simpl in Hj; [|discriminate].
    injection Hj as <-. apply leb_refl. apply Forall_cons in Hnum. tauto.
  - intros j y Hj. lia.
  - eexists _, v. split; [reflexivity|]. auto.
Qed.

(** X16: whatever ascending order [np.argsort] returns, the first entry of
    the top-3 view always carries the maximal probability, the same value as
    the confidence shown with the prediction, and its index is never below
    the predicted one; when the maximum is reached at one index only, the
    first entry is the predicted specialty. *)
Theorem top3_first_is_maximal (pred_probs : list float) (idx : list nat) :
  pred_probs ≠ [] →
  all_numbers pred_probs = true →
  is_argsort pred_probs idx →
  ∃ i x max_idx confidence,
    top3_of idx !! 0 = Some i
    ∧ pred_probs !! i = Some x
    ∧ argmax pred_probs = Some max_idx
    ∧ pred_probs !! max_idx = Some confidence
    ∧ (x <=? confidence)%float = true
    ∧ (confidence <=? x)%float = true
    ∧ max_idx ≤ i
    ∧ ((∀ j y, j ≠ max_idx → pred_probs !! j = Some y →
               (y <? confidence)%float = true) → i = max_idx).
Proof.
  intros Hne Hnum%all_numbers_Forall Hsort.
  destruct (argmax_first_max pred_probs Hne Hnum)
    as (max_idx & conf & Hmax & Hconf & Hall & Hbefore).
  destruct (top3_of_argsort pred_probs idx Hsort) as (Hlen & _ & Hdesc & Hdom).
  assert (Hpos : 0 < length (top3_of idx)).
  { rewrite Hlen. destruct pred_probs; [congruence|simpl; lia]. }
  destruct (lookup_lt_is_Some_2 _ _ Hpos) as [i Hi].
  assert (Hin : i ∈ top3_of idx) by (apply list_elem_of_lookup; eauto).
  assert (Hil : i < length pred_probs).
  { pose proof (top3_of_in_range pred_probs idx Hsort) as R.
    rewrite Forall_forall in R. apply R, Hin. }
  destruct (lookup_lt_is_Some_2 _ _ Hil) as [x Hx].
  assert (Htop : ∀ j y, pred_probs !! j = Some y → (y <=? x)%float = true).
  { intros j y Hy. destruct (decide (j ∈ top3_of idx)) as [Hj|Hj].
    - apply list_elem_of_lookup in Hj as [v Hv]. destruct v as [|v].
      + assert (j = i) by congruence. subst j.
        assert (y = x) by congruence. subst y.
        apply leb_refl. rewrite Forall_forall in Hnum.
        apply Hnum, list_elem_of_lookup. eauto.
      + destruct (Hdesc 0 (S v) i j) as (x' & y' & Hx' & Hy' & Hle);
          [lia|exact Hi|exact Hv|]. congruence.
    - exact (Hdom i j x y Hin Hj Hx Hy). }
  assert (Hcx : (conf <=? x)%float = true) by (eapply Htop; exact Hconf).
  assert (Hxc : (x <=? conf)%float = true) by (eapply Hall; exact Hx).
  exists i, x, max_idx, conf.
  repeat (split; [assumption|]). split.
  - destruct (decide (max_idx ≤ i)) as [?|Hn]; [assumption|exfalso].
    assert (Hlt : (x <? conf)%float = true) by (apply (Hbefore i x); [lia|exact Hx]).
    apply leb_not_ltb in Hcx. congruence.
  - intros Huniq. destruct (decide (i = max_idx)) as [?|Hn]; [assumption|exfalso].
    pose proof (Huniq i x Hn Hx) as Hlt.
    apply leb_not_ltb in Hcx. congruence.
Qed.

Lemma top3_first_is_maximal_witness :
  ∃ i x max_idx confidence,
    top3_of [2; 0; 1] !! 0 = Some i
    ∧ [0.2; 0.7; 0.1]%float !! i = Some x
    ∧ argmax [0.2; 0.7; 0.1]%float = Some max_idx
    ∧ [0.2; 0.7; 0.1]%float !! max_idx = Some confidence
    ∧ (x <=? confidence)%float = true
    ∧ (confidence <=? x)%float = true
    ∧ max_idx ≤ i
    ∧ ((∀ j y, j ≠ max_idx → [0.2; 0.7; 0.1]%float !! j = Some y →
               (y <? confidence)%float = true) → i = max_idx).
Proof.
  apply (top3_first_is_maximal [0.2; 0.7; 0.1]%float [2; 0; 1]);
    [discriminate|reflexivity|].
  change [2; 0; 1] with (argsort_stable [0.2; 0.7; 0.1]%float).
  apply argsort_is_argsort, all_numbers_Forall. reflexivity.
Defined.

End FirstBar.

(** ** A run of the page with its model loaded *)

Section PageMore.
Import Voice App.
Local Opaque py.

(** The loader returns, and touches neither the files nor the session
    text, cache or no cache. *)
Lemma load_models_run (env : Env) (s : Store) :
  ∃ r s0 shown,
    load_models env s = (inr r, s0, shown)
    ∧ fs s0 = fs s ∧ texto_completo s0 = texto_completo s.
Proof.
  unfold load_models. destruct (models_cache s) as [[r shown]|].
  - exists r, s, shown. auto.
  - destruct (load_models_body_run env s) as (r & evs & Hb). rewrite Hb.
    eexists r, _, evs. split; [reflexivity|]. split; reflexivity.
Qed.

(** What a run does once the model is loaded: the status line, the
    dictation block, then either the reset or the analysis on the content
    of the text area. *)
Lemma page_body_loaded (env : Env) (w : World) (req : Request) (s : Store)
    (m : Model) (le : option LabelEncoder) :
  ∃ s1 evs,
    process_audio env w (audio_bytes req) s = (inr tt, s1, evs)
    ∧ texto_completo s1 = dictated env w (audio_bytes req) (texto_completo s)
    ∧ (∀ p, p ≠ temp_file → fs s1 !! p = fs s !! p)
    ∧ Forall (λ e, Fixture.is_component_call e = false) evs
    ∧ page_body env w req (Some m, le) s =
        if limpiar_todo req
        then (inr tt, set_texto_completo [] s1,
              StSuccess (py "● Sistema En Línea") :: evs ++ [StRerun])
        else
          let texto_input := text_area req (texto_completo s1) in
          let r := analysis env m le (analizar req) texto_input
                     (set_texto_completo texto_input s1) in
          (r.1.1, r.1.2, StSuccess (py "● Sistema En Línea") :: evs ++ r.2).
Proof.
  destruct (process_audio_run env w (audio_bytes req) s) as (s1 & evs & E & Ht & Hf & Hc).
  exists s1, evs. repeat (split; [assumption|]).
  unfold page_body. cbn -[process_audio analysis]. unfold bind, emit, get_store, modify.
  cbn -[process_audio analysis]. rewrite E. cbn -[process_audio analysis].
  destruct (limpiar_todo req); cbn -[process_audio analysis].
  - reflexivity.
  - destruct (analysis env m le (analizar req) (text_area req (texto_completo s1))
                (set_texto_completo (text_area req (texto_completo s1)) s1))
      as [[r s2] l2].
    reflexivity.
Qed.

(** X17: after a run with the model loaded and no reset, the session holds
    exactly what the text area returned, and the text area was offered the
    previous text with the new transcript merged in (or the previous text
    alone when nothing was dictated or the transcription failed); this holds
    even when the analysis fails, and whether the loader ran or answered
    from its cache. *)
Theorem session_follows_text_area (env : Env) (w : World) (req : Request)
    (s s0 : Store) (m : Model) (l : LabelEncoder) :
  load_models env s = (inr (Some m, Some l), s0, []) →
  limpiar_todo req = false →
  texto_completo (run_page env w req s).1.2
    = text_area req (dictated env w (audio_bytes req) (texto_completo s)).
Proof.
  intros Hload Hno.
  destruct (load_models_run env s) as (r' & s0' & shown & Hrun & _ & Hsame).
  rewrite Hload in Hrun. injection Hrun as _ <- _.
  destruct (page_body_loaded env w req s0 m (Some l))
    as (s1 & evs & _ & Ht & _ & _ & E).
  unfold run_page. rewrite (bind_run _ _ _ _ _ _ Hload). cbn [fst snd app].
  rewrite E, Hno. cbv zeta. cbn [fst snd].
  rewrite (keeps_analysis env m (Some l) (analizar req) _ _). simpl.
  rewrite Ht, Hsame. reflexivity.
Qed.

Lemma session_follows_text_area_witness :
  texto_completo
    (run_page Fixture.env Fixture.world
       (Fixture.request (py "Dolor abdominal intenso")) Fixture.store_ok).1.2
  = py "Dolor abdominal intenso".
Proof.
  apply (session_follows_text_area Fixture.env Fixture.world
           (Fixture.request (py "Dolor abdominal intenso")) Fixture.store_ok
           (set_models_cache (Some ((Some Fixture.model, Some Fixture.le), []))
              Fixture.store_ok)
           Fixture.model Fixture.le).
  - vm_compute. reflexivity.
  - reflexivity.
Defined.

(** X18: "Limpiar todo" empties the session text and reruns the script
    without analysing anything: no component is called in that run, even if
    a recording was transcribed just before. *)
Theorem limpiar_todo_resets (env : Env) (w : World) (req : Request)
    (s s0 : Store) (m : Model) (l : LabelEncoder) :
  load_models env s = (inr (Some m, Some l), s0, []) →
  limpiar_todo req = true →
  ∃ s' evs,
    run_page env w req s = (inr tt, s', evs ++ [StRerun])
    ∧ texto_completo s' = []
    ∧ Forall (λ e, Fixture.is_component_call e = false) evs.
Proof.
  intros Hload Hyes.
  destruct (page_body_loaded env w req s0 m (Some l))
    as (s1 & evs & _ & _ & _ & Hc & E).
  unfold run_page. rewrite (bind_run _ _ _ _ _ _ Hload). cbn [fst snd app].
  rewrite E, Hyes.
  exists (set_texto_completo [] s1), (StSuccess (py "● Sistema En Línea") :: evs).
  split; [reflexivity|]. split; [reflexivity|].
  apply Forall_cons. split; [reflexivity|exact Hc].
Qed.

Lemma limpiar_todo_resets_witness :
  ∃ s' evs,
    run_page Fixture.env Fixture.world
      {| audio_bytes := None; text_area := λ v, v; analizar := false;
         limpiar_todo := true |}
      Fixture.store_ok
    = (inr tt, s', evs ++ [StRerun])
    ∧ texto_completo s' = []
    ∧ Forall (λ e, Fixture.is_component_call e = false) evs.
Proof.
  apply (limpiar_todo_resets Fixture.env Fixture.world _ Fixture.store_ok
           (set_models_cache (Some ((Some Fixture.model, Some Fixture.le), []))
              Fixture.store_ok)
           Fixture.model Fixture.le).
  - vm_compute. reflexivity.
  - reflexivity.
Defined.

(** X19: whatever the request and whatever happens, a run of the page
    leaves every file other than [temp_audio.wav] as it found it; the model
    artifacts in particular are only read. *)
Theorem run_page_keeps_files (env : Env) (w : World) (req : Request) (s : Store)
    (p : string) :
  p ≠ temp_file →
  fs (run_page env w req s).1.2 !! p = fs s !! p.
Proof.
  intros Hp.
  destruct (load_models_run env s) as (r & s0 & shown & Hload & Hfs & _).
  unfold run_page. rewrite (bind_run _ _ _ _ _ _ Hload). cbn [fst snd].
  rewrite <- Hfs. destruct r as [[m|] le].
  - destruct (page_body_loaded env w req s0 m le) as (s1 & evs & _ & _ & Hf & _ & E).
    rewrite E. destruct (limpiar_todo req).
    + simpl. apply Hf, Hp.
    + cbv zeta. cbn [fst snd].
      rewrite (keeps_analysis env m le (analizar req) _ _). simpl.
      apply Hf, Hp.
  - rewrite (page_body_degraded env w req le s0). reflexivity.
Qed.

Lemma run_page_keeps_files_witness :
  fs (run_page Fixture.env Fixture.world
        (Fixture.request (py "Dolor abdominal intenso")) Fixture.store_ok).1.2
    !! "models/svm_model.pkl"
  = fs Fixture.store_ok !! "models/svm_model.pkl".
Proof.
  apply (run_page_keeps_files Fixture.env Fixture.world
           (Fixture.request (py "Dolor abdominal intenso")) Fixture.store_ok
           "models/svm_model.pkl").
  vm_compute. discriminate.
Defined.

End PageMore.

(** ** Failure inside the analysis *)

Section AnalysisFailure.
Import Np App.
Local Opaque py.

(** X20: when the decoder has no label for the predicted index (artifacts
    that do not belong together), the block raises right after the
    classifier was called: no diagnosis is shown, and neither the urgency
    scorer nor the referral router is called for that text. *)
Theorem analysis_unknown_label (env : Env) (model : Model) (le : LabelEncoder)
    (texto_input : str) (s : Store) (max_idx : nat) :
  (10 <= len texto_input)%Z →
  argmax (predict_proba model (limpiar_texto_medico env texto_input)) = Some max_idx →
  classes_ le !! max_idx = None →
  ∃ e,
    analysis env model (Some le) true texto_input s
    = (inl e, s,
       [CallLimpiarTextoMedico texto_input;
        CallPredictProba (limpiar_texto_medico env texto_input);
        CallInverseTransform [max_idx]]).
Proof.
  intros Hlen Hmax Hnone.
  assert (Ht : truthy texto_input = true).
  { clear -Hlen. destruct texto_input; [unfold len in Hlen; simpl in Hlen; lia|reflexivity]. }
  assert (Hz : (len texto_input <? 10)%Z = false) by (apply Z.ltb_ge; exact Hlen).
  unfold analysis. rewrite Ht, Hz. cbn [andb]. cbv zeta.
  remember (predict_proba model (limpiar_texto_medico env texto_input)) as pred eqn:Hp.
  assert (Hlt : (max_idx < length pred)%nat).
  { destruct pred as [|x l]; [discriminate Hmax|]. simpl in Hmax.
    injection Hmax as <-. pose proof (argmax_from_lt l x 0 1). simpl. lia. }
  destruct (lookup_lt_is_Some_2 pred max_idx Hlt) as [confidence Hconf].
  assert (Hinv : inverse_transform (Some le) [max_idx] s
                 = (inl (Exn OtherException (py "y contains previously unseen labels")),
                    s, [CallInverseTransform [max_idx]])).
  { unfold inverse_transform, bind, emit, take_idx. cbn. rewrite Hnone. reflexivity. }
  eexists.
  rewrite bind_emit. cbn [fst snd]. rewrite bind_emit. cbn [fst snd].
  rewrite Hmax, bind_ret.
  rewrite (bind_run _ _ _ _ _ _ (index_run _ _ _ s Hconf)). cbn [fst snd app].
  rewrite (bind_fail _ _ _ _ _ _ Hinv). reflexivity.
Qed.

Lemma analysis_unknown_label_witness :
  ∃ e,
    analysis Fixture.env {| predict_proba := λ _, [0.1; 0.2; 0.3; 0.4]%float |}
      (Some Fixture.le) true (py "Dolor abdominal intenso") Fixture.store_ok
    = (inl e, Fixture.store_ok,
       [CallLimpiarTextoMedico (py "Dolor abdominal intenso");
        CallPredictProba (limpiar_texto_medico Fixture.env (py "Dolor abdominal intenso"));
        CallInverseTransform [3%nat]]).
Proof.
  apply (analysis_unknown_label Fixture.env
           {| predict_proba := λ _, [0.1; 0.2; 0.3; 0.4]%float |}
           Fixture.le (py "Dolor abdominal intenso") Fixture.store_ok 3).
  - vm_compute. discriminate.
  - reflexivity.
  - reflexivity.
Defined.

End AnalysisFailure.

(** ** The temporary file after a run of the page *)

Section PageTempFile.
Import Voice App.
Local Opaque py.

Lemma process_audio_temp_file (env : Env) (w : World) (b : Byte.byte) (a : bytes)
    (s : Store) :
  w_remove w = None →
  fs (process_audio env w (Some (b :: a)) s).1.2 !! temp_file = None.
Proof.
  intros Hrm.
  destruct (transcribe_audio_run (voice_config env) w (b :: a) None s)
    as (s1 & evs & E & _ & Hf & _).
  destruct Hf as [Hf|[Hf _]]; [|congruence].
  unfold process_audio, bind. rewrite E.
  destruct (outcome_of w (language_of (voice_config env) None)) as [t| |d|d];
    unfold encode; cbn -[append_text contains lower].
  - exact Hf.
  - destruct (contains _ _); exact Hf.
  - destruct (contains _ _); exact Hf.
  - destruct (contains _ _); exact Hf.
Qed.

(** X22: a run of the page that transcribes a recording leaves no
    [temp_audio.wav] behind when [os.remove] works, whatever the outcome of
    the transcription, of the reset and of the analysis, and even if a file
    of that name was there before the run. *)
Theorem run_page_leaves_no_temp_file (env : Env) (w : World) (req : Request)
    (s s0 : Store) (m : Model) (l : LabelEncoder) (b : Byte.byte) (a : bytes) :
  load_models env s = (inr (Some m, Some l), s0, []) →
  audio_bytes req = Some (b :: a) →
  w_remove w = None →
  fs (run_page env w req s).1.2 !! temp_file = None.
Proof.
  intros Hload Haudio Hrm.
  pose proof (process_audio_temp_file env w b a s0 Hrm) as Htemp.
  destruct (page_body_loaded env w req s0 m (Some l))
    as (s1 & evs & Ep & _ & _ & _ & E).
  rewrite Haudio in Ep. rewrite Ep in Htemp. simpl in Htemp.
  unfold run_page. rewrite (bind_run _ _ _ _ _ _ Hload). cbn [fst snd app].
  rewrite E. destruct (limpiar_todo req).
  - simpl. exact Htemp.
  - cbv zeta. simpl.
    rewrite (keeps_analysis env m (Some l) (analizar req) _ _). simpl. exact Htemp.
Qed.

Lemma run_page_leaves_no_temp_file_witness :
  fs (run_page Fixture.env Fixture.world
        {| audio_bytes := Some [Byte.x78]; text_area := λ v, v; analizar := true;
           limpiar_todo := false |}
        {| fs := <[temp_file := []]> (fs Fixture.store_ok); texto_completo := [];
           models_cache := None |}).1.2
    !! temp_file = None.
Proof.
  apply (run_page_leaves_no_temp_file Fixture.env Fixture.world _ _
           {| fs := <[temp_file := []]> (fs Fixture.store_ok); texto_completo := [];
              models_cache := Some ((Some Fixture.model, Some Fixture.le), []) |}
           Fixture.model Fixture.le Byte.x78 []).
  - vm_compute. reflexivity.
  - reflexivity.
  - reflexivity.
Defined.

End PageTempFile.
